(** * The NEMA command-list interpreter of hw/slate/nema.c

    A shallow embedding of the register interface, the command-list
    dispatcher, the pipeline context and its validation, the texture
    acquisition (with the mask stride rounding) and the opacity blending of
    [hw/slate/nema.c], together with the declarations of [nema.h].

    Conventions.
    - C integers are [Z]; every conversion the C code performs (parameter
      passing to a narrower type, unsigned arithmetic) is written out with
      [uint8], [uint16], [uint32], [int16], [int32].  The C remainder [%]
      is [Z.rem].
    - Pointers that may be [NULL] are [option]s.
    - The device lives in a [world]: the [NEMAState] fields the code uses,
      the guest memory it reads, and the list [calls] of the calls that leave
      the file (interrupt line, memory unmapping, pixman compositing, cairo
      painting) in program order.  The rendering libraries are not part of
      the sources; what they are asked to do is recorded, with its arguments,
      and guest memory is not rewritten by it.
    - A C function is a function [world -> outcome A * world]; [Exited] is
      [error_report] followed by [exit(EXIT_FAILURE)], [Undefined] is an
      execution the C source gives no meaning to (an index outside an array,
      a copy or an allocation of negative size). *)

From Stdlib Require Import ZArith List Bool Lia.
From Stdlib Require Strings.String.
From Equations Require Import Equations.
Import ListNotations.
Open Scope Z_scope.

(* ------------------------------------------------------------------ *)
(** ** Machine integers *)

Definition uint8 (x : Z) : Z := x mod 256.
Definition uint16 (x : Z) : Z := x mod 65536.
Definition uint32 (x : Z) : Z := x mod 4294967296.

Definition int16 (x : Z) : Z :=
  let u := x mod 65536 in if u <? 32768 then u else u - 65536.

Definition int32 (x : Z) : Z :=
  let u := x mod 4294967296 in if u <? 2147483648 then u else u - 4294967296.

(* ------------------------------------------------------------------ *)
(** ** nema.h *)

Definition NEMA_MAX_CMD_COUNT : Z := 250.

Definition NEMA_REG_OP : Z := 0.
Definition NEMA_REG_SIG : Z := 1.

Definition NEMA_REG_OP_SUBMIT_COMMAND : Z := 1.
Definition NEMA_REG_OP_SUBMIT_COMMAND_LIST : Z := 2.
Definition NEMA_REG_OP_SIGNAL_RECEIVED : Z := 3.

Definition NEMA_OP_BIND_TEX : Z := 1.
Definition NEMA_OP_SET_CLIP : Z := 2.
Definition NEMA_OP_SET_BLEND_BLIT : Z := 3.
Definition NEMA_OP_SET_BLEND_FILL : Z := 4.
Definition NEMA_OP_SET_CONST_COLOR : Z := 5.
Definition NEMA_OP_DRAW_LINE : Z := 6.
Definition NEMA_OP_BLIT : Z := 7.
Definition NEMA_OP_FILL_RECT : Z := 8.
Definition NEMA_OP_DRAW_RECT : Z := 9.
Definition NEMA_OP_FILL_RECT_ROUNDED : Z := 10.
Definition NEMA_OP_DRAW_RECT_ROUNDED : Z := 11.

(** [typedef enum { NEMA_NOTEX, NEMA_TEX0, NEMA_TEX1, NEMA_TEX2, NEMA_TEX3 }] *)
Definition NEMA_NOTEX : Z := 0.
Definition NEMA_TEX0 : Z := 1.
Definition NEMA_TEX1 : Z := 2.
Definition NEMA_TEX2 : Z := 3.
Definition NEMA_TEX3 : Z := 4.

Definition NEMA_BL_SIMPLE : Z := 1.
Definition NEMA_BL_MASK : Z := 2.
Definition NEMA_BL_OPA : Z := 4.

Record nema_cmd_t : Type := {
  op : Z;          (* uint8_t *)
  addr_a : Z;      (* uint32_t *)
  addr_b : Z;      (* uint32_t *)
  u_int_8_a : Z;   (* uint8_t *)
  u_int_a : Z;     (* uint32_t *)
  u_int_b : Z;     (* uint32_t *)
  u_int_c : Z;     (* uint32_t *)
  int_a : Z;       (* int32_t *)
  int_b : Z;       (* int32_t *)
  int_c : Z;       (* int32_t *)
  int_d : Z        (* int32_t *)
}.

(** [nema_cmd_t list[NEMA_MAX_CMD_COUNT]; uint8_t next_cmd_slot;]
    (the array field is [cl_list] here, [list] being the type of lists). *)
Record nema_cmdlist_t : Type := {
  cl_list : list nema_cmd_t;
  next_cmd_slot : Z
}.

(** The array of a command list has exactly [NEMA_MAX_CMD_COUNT] entries. *)
Definition cmdlist_wf (cl : nema_cmdlist_t) : Prop :=
  Z.of_nat (length (cl_list cl)) = NEMA_MAX_CMD_COUNT.

(** [sizeof(nema_cmd_t)] is 44 with natural alignment, and the count byte
    is padded to a word. *)
Definition sizeof_nema_cmdlist_t : Z := NEMA_MAX_CMD_COUNT * 44 + 4.

(** [NEMA_MEM_START + NEMA_FB_MEM_SIZE + NEMA_IO_MEM_SIZE] *)
Definition NEMA_CL_MEM_START : Z := 570425344 + 2 * 1048576 + 4096.

Record nema_region_t : Type := {
  reg_x : Z;
  reg_y : Z;
  reg_w : Z;
  reg_h : Z
}.

(** A [pixman_region16_t] is kept as the rectangle it was initialised from
    by [pixman_region_init_rect]. *)
Record pixman_region16_t : Type := {
  rg_x : Z;
  rg_y : Z;
  rg_width : Z;
  rg_height : Z
}.

(** The fields of [struct NEMAState] that nema.c reads or writes. *)
Record NEMAState : Type := {
  inst_processed : bool;            (* level of the qemu_irq line *)
  has_clip_set : bool;
  pixman_clip_region : pixman_region16_t;
  nema_clip_region : nema_region_t
}.

(* ------------------------------------------------------------------ *)
(** ** Images and the pipeline context *)

Inductive pixman_format_code_t : Type := PIXMAN_a8r8g8b8 | PIXMAN_a8.

(** The pixel storage behind an image: guest memory mapped for writing, or
    a buffer obtained from [g_malloc]. *)
Inductive bits_t : Type :=
| MappedBits (addr len : Z)
| OwnedBits (bytes : list Z).

(** What [pixman_image_create_bits] is given. *)
Record pixman_image_t : Type := {
  img_format : pixman_format_code_t;
  img_width : Z;
  img_height : Z;
  img_data : bits_t;
  img_stride : Z
}.

(** What [cairo_image_surface_create_for_data] is given. *)
Record cairo_surface_t : Type := {
  surf_data : bits_t;
  surf_width : Z;
  surf_height : Z;
  surf_stride : Z
}.

Inductive blend_option_t : Type := BLEND_FILL | BLEND_BLIT.

Record pipeline_ctx_t : Type := {
  dest_tex : option pixman_image_t;
  src_tex : option pixman_image_t;
  mask_tex : option pixman_image_t;
  dest_surface : option cairo_surface_t;
  src_surface : option cairo_surface_t;
  const_color : Z;
  const_color_set : bool;
  blending_mode : Z;                 (* nema_blend_mode_t = uint8_t *)
  blending_option : blend_option_t
}.

(** [pipeline_ctx_t ctx = {0}] and [memset(ctx, 0, sizeof(pipeline_ctx_t))]. *)
Definition ctx_zero : pipeline_ctx_t :=
  {| dest_tex := None; src_tex := None; mask_tex := None;
     dest_surface := None; src_surface := None;
     const_color := 0; const_color_set := false;
     blending_mode := 0; blending_option := BLEND_FILL |}.

Definition set_dest_tex (v : option pixman_image_t) (c : pipeline_ctx_t) :=
  {| dest_tex := v; src_tex := src_tex c; mask_tex := mask_tex c;
     dest_surface := dest_surface c; src_surface := src_surface c;
     const_color := const_color c; const_color_set := const_color_set c;
     blending_mode := blending_mode c; blending_option := blending_option c |}.

Definition set_src_tex (v : option pixman_image_t) (c : pipeline_ctx_t) :=
  {| dest_tex := dest_tex c; src_tex := v; mask_tex := mask_tex c;
     dest_surface := dest_surface c; src_surface := src_surface c;
     const_color := const_color c; const_color_set := const_color_set c;
     blending_mode := blending_mode c; blending_option := blending_option c |}.

Definition set_mask_tex (v : option pixman_image_t) (c : pipeline_ctx_t) :=
  {| dest_tex := dest_tex c; src_tex := src_tex c; mask_tex := v;
     dest_surface := dest_surface c; src_surface := src_surface c;
     const_color := const_color c; const_color_set := const_color_set c;
     blending_mode := blending_mode c; blending_option := blending_option c |}.

Definition set_dest_surface (v : option cairo_surface_t) (c : pipeline_ctx_t) :=
  {| dest_tex := dest_tex c; src_tex := src_tex c; mask_tex := mask_tex c;
     dest_surface := v; src_surface := src_surface c;
     const_color := const_color c; const_color_set := const_color_set c;
     blending_mode := blending_mode c; blending_option := blending_option c |}.

Definition set_const_color (v : Z) (c : pipeline_ctx_t) :=
  {| dest_tex := dest_tex c; src_tex := src_tex c; mask_tex := mask_tex c;
     dest_surface := dest_surface c; src_surface := src_surface c;
     const_color := v; const_color_set := true;
     blending_mode := blending_mode c; blending_option := blending_option c |}.

Definition set_blending (o : blend_option_t) (m : Z) (c : pipeline_ctx_t) :=
  {| dest_tex := dest_tex c; src_tex := src_tex c; mask_tex := mask_tex c;
     dest_surface := dest_surface c; src_surface := src_surface c;
     const_color := const_color c; const_color_set := const_color_set c;
     blending_mode := m; blending_option := o |}.

(* ------------------------------------------------------------------ *)
(** ** Calls that leave the file *)

(** The source image of a composite: [pixman_image_create_solid_fill] of a
    colour, or a bound texture (possibly [NULL]). *)
Inductive composite_source : Type :=
| SolidFill (argb : Z)
| SourceImage (img : option pixman_image_t).

(** One [pixman_image_composite(PIXMAN_OP_OVER, src, mask, dest, 0, 0, 0, 0,
    dest_x, dest_y, width, height)], with the clip region installed on the
    destination just before it. *)
Record composite_call : Type := {
  cc_src : composite_source;
  cc_mask : option pixman_image_t;
  cc_dest : option pixman_image_t;
  cc_clip : pixman_region16_t;
  cc_dest_x : Z;
  cc_dest_y : Z;
  cc_width : Z;
  cc_height : Z
}.

(** The path handed to cairo; its floating-point geometry (arcs, radius)
    is computed by the code from these integers. *)
Inductive cairo_path : Type :=
| PathLine (x0 y0 x1 y1 line_width : Z)
| PathRectangle (x y w h : Z)
| PathRoundedRect (x y w h corner_radius : Z).

Inductive cairo_paint : Type := Stroke | Fill.

(** One [cairo_stroke] or [cairo_fill]: the surface of the context, the
    clip applied to the context ([None] when [cairo_apply_clip] was not
    called), the path, the source colour and the opacity it was multiplied
    with ([None] when it was not). *)
Record cairo_call : Type := {
  cr_surface : option cairo_surface_t;
  cr_clip : option nema_region_t;
  cr_path : cairo_path;
  cr_color : Z;
  cr_opacity : option Z;
  cr_paint : cairo_paint
}.

Inductive event : Type :=
| Dispatch (i : Z) (cmd : nema_cmd_t) (ctx : pipeline_ctx_t)
    (* process_cmd is entered for list[i] with this context *)
| IrqRaise                       (* qemu_irq_raise(ds->inst_processed) *)
| IrqLower                       (* qemu_irq_lower(ds->inst_processed) *)
| Unmap (data : bits_t) (access_len : Z)
    (* cpu_physical_memory_unmap(data, 0, true, access_len) *)
| PixmanComposite (c : composite_call)
| CairoPaint (c : cairo_call).

(** The events that write pixels of a destination. *)
Definition is_pixel_write (e : event) : bool :=
  match e with
  | PixmanComposite _ | CairoPaint _ => true
  | _ => false
  end.

Definition is_irq_raise (e : event) : bool :=
  match e with IrqRaise => true | _ => false end.

(* ------------------------------------------------------------------ *)
(** ** The world and the monad of C functions *)

Record world : Type := {
  dev : NEMAState;
  ram : Z -> Z;                 (* guest physical memory, a byte per address *)
  itcm : Z -> option Z;         (* system_itcm_as; None where the access fails *)
  phys_map : Z -> Z -> Z;       (* length cpu_physical_memory_map grants *)
  cl_mem : nema_cmdlist_t;      (* the block at NEMA_CL_MEM_START, as a struct *)
  calls : list event
}.

Inductive ub : Type :=
| ArrayIndex (i : Z)       (* list[i] with i outside the array *)
| NegativeSize             (* a negative int used as a size_t *)
| BufferRange              (* a read or write past the end of a buffer *)
| Uninitialised.           (* a buffer handed on without having been written *)

Inductive outcome (A : Type) : Type :=
| Done (a : A)
| Exited
| Undefined (why : ub).
Arguments Done {A} a.
Arguments Exited {A}.
Arguments Undefined {A} why.

Definition M (A : Type) : Type := world -> outcome A * world.

Definition ret {A} (a : A) : M A := fun w => (Done a, w).

Definition bind {A B} (m : M A) (k : A -> M B) : M B :=
  fun w =>
    match m w with
    | (Done a, w') => k a w'
    | (Exited, w') => (Exited, w')
    | (Undefined u, w') => (Undefined u, w')
    end.

Notation "x <- m ;; k" := (bind m (fun x => k))
  (at level 61, m at next level, right associativity).
Notation "m ;;; k" := (bind m (fun _ => k))
  (at level 61, right associativity).

(** [error_report(...); exit(EXIT_FAILURE);] *)
Definition exit_failure {A} : M A := fun w => (Exited, w).

Definition undefined {A} (u : ub) : M A := fun w => (Undefined u, w).

Definition get_dev : M NEMAState := fun w => (Done (dev w), w).

Definition set_dev (d : NEMAState) : M unit :=
  fun w => (Done tt,
            {| dev := d; ram := ram w; itcm := itcm w; phys_map := phys_map w;
               cl_mem := cl_mem w; calls := calls w |}).

Definition log_calls (l : list event) (w : world) : world :=
  {| dev := dev w; ram := ram w; itcm := itcm w; phys_map := phys_map w;
     cl_mem := cl_mem w; calls := calls w ++ l |}.

Definition emit (e : event) : M unit := fun w => (Done tt, log_calls [e] w).

Definition set_ram (m : Z -> Z) : M unit :=
  fun w => (Done tt,
            {| dev := dev w; ram := m; itcm := itcm w; phys_map := phys_map w;
               cl_mem := cl_mem w; calls := calls w |}).

(* ------------------------------------------------------------------ *)
(** ** Guest memory *)

(** [n] consecutive bytes from [addr] on. *)
Fixpoint read_from {A} (mem : Z -> A) (addr : Z) (n : nat) : list A :=
  match n with
  | O => []
  | S k => mem addr :: read_from mem (addr + 1) k
  end.

Definition read_bytes (mem : Z -> Z) (addr len : Z) : list Z :=
  read_from mem addr (Z.to_nat len).

Fixpoint sequence_opt {A} (l : list (option A)) : option (list A) :=
  match l with
  | [] => Some []
  | None :: _ => None
  | Some a :: r =>
      match sequence_opt r with
      | Some r' => Some (a :: r')
      | None => None
      end
  end.

Definition read_bytes_opt (mem : Z -> option Z) (addr len : Z)
  : option (list Z) :=
  sequence_opt (read_from mem addr (Z.to_nat len)).

(** The bytes a data pointer designates. *)
Definition bytes_of (w : world) (data : bits_t) : list Z :=
  match data with
  | OwnedBits bytes => bytes
  | MappedBits addr len => read_bytes (ram w) addr len
  end.

(** Modelled from the spec: [cpu_physical_memory_map] is QEMU core code
    outside the sources.  A view of guest memory is acquired for the
    requested length; the platform answers with the length it grants
    ([phys_map]), and no view ([NULL]) is a grant of zero bytes. *)
Definition cpu_physical_memory_map (addr len : Z) : M (option bits_t * Z) :=
  fun w =>
    let granted := phys_map w addr len in
    (Done (if granted =? 0 then None else Some (MappedBits addr granted),
           granted), w).

(** Modelled from the spec: [qemu_irq_raise] and [qemu_irq_lower] are QEMU
    core code outside the sources.  The completion signal is a level: raising
    sets the line, lowering clears it. *)
Definition qemu_irq_set (level : bool) : M unit :=
  d <- get_dev ;;
  set_dev {| inst_processed := level; has_clip_set := has_clip_set d;
             pixman_clip_region := pixman_clip_region d;
             nema_clip_region := nema_clip_region d |}.

Definition qemu_irq_raise : M unit := qemu_irq_set true ;;; emit IrqRaise.
Definition qemu_irq_lower : M unit := qemu_irq_set false ;;; emit IrqLower.

(* ------------------------------------------------------------------ *)
(** ** nema.c *)

(** The loop of [round_mask_if_needed]: per row, [memcpy] of [stride]
    bytes, [memset] of [padding] zero bytes, both pointers advanced. *)
Fixpoint copy_rows (rows : nat) (src : list Z) (stride padding : nat)
  : list Z :=
  match rows with
  | O => []
  | S k =>
      firstn stride src ++ repeat 0 padding
        ++ copy_rows k (skipn stride src) stride padding
  end.

(** [round_mask_if_needed(mask, stride, height)], with [lv_coord_t stride]
    and [lv_coord_t height] already converted by the caller.  [None] is the
    [NULL] result: of the early return, or of [g_malloc] of zero bytes. *)
Definition round_mask_if_needed (mask : list Z) (stride height : Z)
  : outcome (option (list Z)) :=
  if Z.rem stride 4 =? 0 then Done None
  else
    let padding := uint8 (Z.rem (4 - Z.rem stride 4) 4) in
    let size := (stride + padding) * height in
    if size <? 0 then Undefined NegativeSize
    else if height <=? 0 then
      if size =? 0 then Done None else Undefined Uninitialised
    else if stride <? 0 then Undefined NegativeSize
    else if Z.of_nat (length mask) <? stride * height then
      Undefined BufferRange
    else
      Done (Some (copy_rows (Z.to_nat height) mask
                    (Z.to_nat stride) (Z.to_nat padding))).

(** [unmap_pixman_img]: the write mapping is released with
    [size = stride * height] as access length; a private copy is freed. *)
Definition unmap_pixman_img (image : pixman_image_t) (is_write : bool)
  : M unit :=
  let size := uint32 (img_stride image * img_height image) in
  if is_write then emit (Unmap (img_data image) size) else ret tt.

Definition unmap_pixman_imgs (ctx : pipeline_ctx_t) : M pipeline_ctx_t :=
  ctx <- match dest_tex ctx with
         | Some img => unmap_pixman_img img true ;;; ret (set_dest_tex None ctx)
         | None => ret ctx
         end ;;
  ctx <- match mask_tex ctx with
         | Some img => unmap_pixman_img img false ;;; ret (set_mask_tex None ctx)
         | None => ret ctx
         end ;;
  match src_tex ctx with
  | Some img => unmap_pixman_img img false ;;; ret (set_src_tex None ctx)
  | None => ret ctx
  end.

(** [clean_up_ctx]: release the images, destroy the cairo surfaces, then
    [memset(ctx, 0, sizeof(pipeline_ctx_t))]. *)
Definition clean_up_ctx (ctx : pipeline_ctx_t) : M pipeline_ctx_t :=
  _ <- unmap_pixman_imgs ctx ;;
  ret ctx_zero.

Definition is_null {A} (p : option A) : bool :=
  match p with None => true | Some _ => false end.

Definition validate_ctx (ctx : pipeline_ctx_t) : M unit :=
  ds <- get_dev ;;
  let blend_mode := blending_mode ctx in
  if negb (has_clip_set ds) then exit_failure
  else if is_null (dest_tex ctx) then exit_failure
  else if is_null (dest_surface ctx) then exit_failure
  else if (if negb (Z.land blend_mode NEMA_BL_MASK =? 0)
           then is_null (mask_tex ctx)
           else negb (is_null (mask_tex ctx))) then exit_failure
  else if (if negb (Z.land blend_mode NEMA_BL_OPA =? 0)
           then negb (const_color_set ctx)
           else const_color_set ctx) then exit_failure
  else ret tt.

(** [cairo_prepare_source]: the opacity the colour's alpha is multiplied
    with, when there is one. *)
Definition cairo_prepare_source (ctx : pipeline_ctx_t) : M (option Z) :=
  if negb (is_null (mask_tex ctx)) then exit_failure
  else if Z.land (blending_mode ctx) NEMA_BL_OPA =? 0 then ret None
  else ret (Some (Z.land (Z.shiftr (const_color ctx) 24) 255)).

(** [data[i] = (uint32_t)((uint32_t)data[i] * opacity) >> 8], stored in a
    byte. *)
Definition scale_byte (opacity b : Z) : Z :=
  uint8 (Z.shiftr (uint32 (b * opacity)) 8).

(** [pixman_image_create_bits(format, width, height, bits, stride)] with
    [int] arguments; the image is taken to be created. *)
Definition pixman_image_create_bits (format : pixman_format_code_t)
    (width height : Z) (data : bits_t) (stride : Z) : pixman_image_t :=
  {| img_format := format; img_width := width; img_height := height;
     img_data := data; img_stride := stride |}.

(** The image with its buffer contents replaced (the loop of
    [blend_opacity_if_needed] writes the buffer in place). *)
Definition set_img_data (data : list Z) (img : pixman_image_t)
  : pixman_image_t :=
  {| img_format := img_format img; img_width := img_width img;
     img_height := img_height img; img_data := OwnedBits data;
     img_stride := img_stride img |}.

Definition blend_opacity_if_needed (ctx : pipeline_ctx_t)
  : M pipeline_ctx_t :=
  if Z.land (blending_mode ctx) NEMA_BL_OPA =? 0 then ret ctx
  else
    let opacity := uint8 (Z.land (Z.shiftr (const_color ctx) 24) 255) in
    match mask_tex ctx with
    | None =>
        match dest_tex ctx with
        | None => exit_failure
        | Some dest_tex =>
            let dest_width := img_width dest_tex in
            let dest_height := img_height dest_tex in
            let stride :=
              int16 (if Z.rem dest_width 4 =? 0 then dest_width
                     else Z.shiftl (Z.shiftr dest_width 2 + 1) 2) in
            let size := uint32 (dest_height * stride) in
            let mask_data := repeat opacity (Z.to_nat size) in
            ret (set_mask_tex
                   (Some (pixman_image_create_bits PIXMAN_a8 dest_width
                            dest_height (OwnedBits mask_data) stride)) ctx)
        end
    | Some mask =>
        let size := uint32 (img_stride mask * img_height mask) in
        match img_data mask with
        | OwnedBits data =>
            if Z.of_nat (length data) <? size then undefined BufferRange
            else
              let data' :=
                map (scale_byte opacity) (firstn (Z.to_nat size) data)
                  ++ skipn (Z.to_nat size) data in
              ret (set_mask_tex (Some (set_img_data data' mask)) ctx)
        | MappedBits addr len =>
            fun w =>
              (ret ctx)
                (snd (set_ram
                        (fun a => if (addr <=? a) && (a <? addr + size)
                                  then scale_byte opacity (ram w a)
                                  else ram w a) w))
        end
    end.

Definition pixman_image_composite (c : composite_call) : M unit :=
  emit (PixmanComposite c).

Definition execute_fill_rect (cmd : nema_cmd_t) (ctx : pipeline_ctx_t)
  : M pipeline_ctx_t :=
  validate_ctx ctx ;;;
  let color := u_int_c cmd in
  ctx <- blend_opacity_if_needed ctx ;;
  ds <- get_dev ;;
  pixman_image_composite
    {| cc_src := SolidFill color; cc_mask := mask_tex ctx;
       cc_dest := dest_tex ctx; cc_clip := pixman_clip_region ds;
       cc_dest_x := int16 (int_a cmd); cc_dest_y := int16 (int_b cmd);
       cc_width := uint16 (u_int_a cmd);
       cc_height := uint16 (u_int_b cmd) |} ;;;
  ret ctx.

(** The three rounded and plain rectangle operations and the line build a
    cairo context on [ctx->dest_surface], clip it (or not), set the source
    colour and stroke or fill. *)
Definition cairo_draw (c : cairo_call) : M unit := emit (CairoPaint c).

Definition execute_fill_rect_rounded (cmd : nema_cmd_t) (ctx : pipeline_ctx_t)
  : M unit :=
  ds <- get_dev ;;
  cairo_draw
    {| cr_surface := dest_surface ctx;
       cr_clip := Some (nema_clip_region ds);
       cr_path := PathRoundedRect (int_a cmd) (int_b cmd) (u_int_a cmd)
                    (u_int_b cmd) (int_c cmd);
       cr_color := u_int_c cmd; cr_opacity := None; cr_paint := Fill |}.

Definition execute_draw_rect (cmd : nema_cmd_t) (ctx : pipeline_ctx_t)
  : M unit :=
  cairo_draw
    {| cr_surface := dest_surface ctx;
       cr_clip := None;
       cr_path := PathRectangle (int_a cmd) (int_b cmd) (u_int_a cmd)
                    (u_int_b cmd);
       cr_color := u_int_c cmd; cr_opacity := None; cr_paint := Stroke |}.

Definition execute_draw_rect_rounded (cmd : nema_cmd_t) (ctx : pipeline_ctx_t)
  : M unit :=
  ds <- get_dev ;;
  cairo_draw
    {| cr_surface := dest_surface ctx;
       cr_clip := Some (nema_clip_region ds);
       cr_path := PathRoundedRect (int_a cmd) (int_b cmd) (u_int_a cmd)
                    (u_int_b cmd) (int_c cmd);
       cr_color := u_int_c cmd; cr_opacity := None; cr_paint := Stroke |}.

Definition execute_draw_line (cmd : nema_cmd_t) (ctx : pipeline_ctx_t)
  : M unit :=
  ds <- get_dev ;;
  opacity <- cairo_prepare_source ctx ;;
  cairo_draw
    {| cr_surface := dest_surface ctx;
       cr_clip := Some (nema_clip_region ds);
       cr_path := PathLine (int_a cmd) (int_b cmd) (int_c cmd) (int_d cmd)
                    (u_int_a cmd);
       cr_color := u_int_b cmd; cr_opacity := opacity; cr_paint := Stroke |}.

Definition assert_not_null {A} (ptr : option A) : M unit :=
  if is_null ptr then exit_failure else ret tt.

Definition execute_blit (ctx : pipeline_ctx_t) : M pipeline_ctx_t :=
  validate_ctx ctx ;;;
  assert_not_null (dest_tex ctx) ;;;
  assert_not_null (src_tex ctx) ;;;
  ctx <- blend_opacity_if_needed ctx ;;
  ds <- get_dev ;;
  let dest_width :=
    match dest_tex ctx with Some d => img_width d | None => 0 end in
  let dest_height :=
    match dest_tex ctx with Some d => img_height d | None => 0 end in
  pixman_image_composite
    {| cc_src := SourceImage (src_tex ctx); cc_mask := mask_tex ctx;
       cc_dest := dest_tex ctx; cc_clip := pixman_clip_region ds;
       cc_dest_x := 0; cc_dest_y := 0;
       cc_width := uint16 dest_width; cc_height := uint16 dest_height |} ;;;
  ret ctx.

(** The bytes [read_tex] copies for a read-only texture: from the ITCM
    address space for an address in the flash window, from guest RAM
    otherwise.  [None] is the failed ITCM transaction. *)
Definition fetch_tex (w : world) (addr len : Z) : option (list Z) :=
  if (268435456 <? addr) && (addr <? 536870912) then
    read_bytes_opt (itcm w) (addr - 268435456) len
  else Some (read_bytes (ram w) addr len).

(** [read_tex]: the image stored through [image] and the returned data
    pointer. *)
Definition read_tex (cmd : nema_cmd_t) (format : pixman_format_code_t)
    (is_write : bool) : M (pixman_image_t * bits_t) :=
  let expected_len := uint32 (int_a cmd * u_int_b cmd) in
  data <- (if is_write then
             r <- cpu_physical_memory_map (addr_a cmd) expected_len ;;
             match r with
             | (Some data, read_len) =>
                 if negb (expected_len =? read_len) then exit_failure
                 else ret data
             | (None, _) => exit_failure
             end
           else
             fun w =>
               match fetch_tex w (addr_a cmd) expected_len with
               | Some bytes => (Done (OwnedBits bytes), w)
               | None => (Exited, w)
               end) ;;
  let stride := int_a cmd in
  match format with
  | PIXMAN_a8 =>
      fun w =>
        match round_mask_if_needed (bytes_of w data) (int16 stride)
                (int16 (u_int_b cmd)) with
        | Done (Some rounded_mask) =>
            let padding := uint8 (4 - Z.rem stride 4) in
            let stride := int32 (stride + padding) in
            (Done (pixman_image_create_bits format (int32 (u_int_a cmd))
                     (int32 (u_int_b cmd)) (OwnedBits rounded_mask) stride,
                   OwnedBits rounded_mask), w)
        | Done None =>
            (Done (pixman_image_create_bits format (int32 (u_int_a cmd))
                     (int32 (u_int_b cmd)) data stride, data), w)
        | Exited => (Exited, w)
        | Undefined u => (Undefined u, w)
        end
  | PIXMAN_a8r8g8b8 =>
      ret (pixman_image_create_bits format (int32 (u_int_a cmd))
             (int32 (u_int_b cmd)) data stride, data)
  end.

Definition cairo_image_surface_create_for_data (data : bits_t)
    (width height stride : Z) : cairo_surface_t :=
  {| surf_data := data; surf_width := width; surf_height := height;
     surf_stride := stride |}.

Definition set_clip (cmd : nema_cmd_t) : M unit :=
  ds <- get_dev ;;
  set_dev
    {| inst_processed := inst_processed ds;
       has_clip_set := true;
       pixman_clip_region :=
         {| rg_x := int_a cmd; rg_y := int_b cmd;
            rg_width := u_int_a cmd; rg_height := u_int_b cmd |};
       nema_clip_region :=
         {| reg_x := int_a cmd; reg_y := int_b cmd;
            reg_w := u_int_a cmd; reg_h := u_int_b cmd |} |}.

Definition process_cmd (cmd : nema_cmd_t) (ctx : pipeline_ctx_t)
  : M pipeline_ctx_t :=
  if op cmd =? NEMA_OP_BIND_TEX then
    if u_int_8_a cmd =? NEMA_TEX0 then
      r <- read_tex cmd PIXMAN_a8r8g8b8 true ;;
      let (image, data) := r in
      ret (set_dest_surface
             (Some (cairo_image_surface_create_for_data data
                      (int32 (u_int_a cmd)) (int32 (u_int_b cmd))
                      (int_a cmd)))
             (set_dest_tex (Some image) ctx))
    else if u_int_8_a cmd =? NEMA_TEX1 then
      r <- read_tex cmd PIXMAN_a8r8g8b8 false ;;
      ret (set_src_tex (Some (fst r)) ctx)
    else if u_int_8_a cmd =? NEMA_TEX3 then
      r <- read_tex cmd PIXMAN_a8 false ;;
      ret (set_mask_tex (Some (fst r)) ctx)
    else exit_failure
  else if op cmd =? NEMA_OP_SET_CLIP then
    set_clip cmd ;;; ret ctx
  else if op cmd =? NEMA_OP_SET_BLEND_FILL then
    ret (set_blending BLEND_FILL (uint8 (u_int_a cmd)) ctx)
  else if op cmd =? NEMA_OP_SET_BLEND_BLIT then
    ret (set_blending BLEND_BLIT (uint8 (u_int_a cmd)) ctx)
  else if op cmd =? NEMA_OP_BLIT then
    ctx <- execute_blit ctx ;; clean_up_ctx ctx
  else if op cmd =? NEMA_OP_FILL_RECT then
    ctx <- execute_fill_rect cmd ctx ;; clean_up_ctx ctx
  else if op cmd =? NEMA_OP_SET_CONST_COLOR then
    ret (set_const_color (u_int_a cmd) ctx)
  else if op cmd =? NEMA_OP_DRAW_LINE then
    execute_draw_line cmd ctx ;;; clean_up_ctx ctx
  else if op cmd =? NEMA_OP_FILL_RECT_ROUNDED then
    execute_fill_rect_rounded cmd ctx ;;; clean_up_ctx ctx
  else if op cmd =? NEMA_OP_DRAW_RECT_ROUNDED then
    execute_draw_rect_rounded cmd ctx ;;; clean_up_ctx ctx
  else if op cmd =? NEMA_OP_DRAW_RECT then
    execute_draw_rect cmd ctx ;;; clean_up_ctx ctx
  else exit_failure.

(** [cl->list[i]]: the array has no entry outside its bounds. *)
Definition list_at (cl : nema_cmdlist_t) (i : Z) : option nema_cmd_t :=
  if i <? 0 then None else nth_error (cl_list cl) (Z.to_nat i).

(** The iterations left to a byte counter at [i]. *)
Definition steps_left (i : Z) : nat := Z.to_nat (256 - i).
Arguments steps_left : simpl never.

(** The loop of [process_cl],
    [for (uint8_t i = 0; i < cl->next_cmd_slot; i++) process_cmd(ds, cl->list[i], &ctx);]
    from the state in which the counter is [i].  The counter is a byte, and
    so is the bound it is compared with. *)
Equations? process_cl_loop (cl : nema_cmdlist_t) (i : Z)
    (ctx : pipeline_ctx_t) (w : world) : outcome unit * world
    by wf (steps_left i) lt :=
  process_cl_loop cl i ctx w with Z_lt_dec i (uint8 (next_cmd_slot cl)) := {
    | right _ => (Done tt, w)
    | left _ with list_at cl i := {
        | None => (Undefined (ArrayIndex i), w)
        | Some cmd
            with process_cmd cmd ctx (snd (emit (Dispatch i cmd ctx) w)) := {
            | (Done ctx', w') => process_cl_loop cl (uint8 (i + 1)) ctx' w'
            | (Exited, w') => (Exited, w')
            | (Undefined u, w') => (Undefined u, w') } } }.
Proof.
  unfold uint8 in *.
  pose proof (Z.mod_pos_bound (next_cmd_slot cl) 256 ltac:(lia)).
  pose proof (Z.mod_pos_bound (i + 1) 256 ltac:(lia)).
  clear process_cl_loop. unfold steps_left.
  destruct (Z_lt_dec i 0).
  - lia.
  - rewrite (Z.mod_small (i + 1) 256) by lia. lia.
Qed.

Definition process_cl (cl : nema_cmdlist_t) : M unit :=
  (fun w => process_cl_loop cl 0 ctx_zero w) ;;;
  qemu_irq_raise.

Definition on_nema_io_write (offset val size : Z) : M unit :=
  if (offset =? NEMA_REG_OP) && (val =? NEMA_REG_OP_SUBMIT_COMMAND_LIST) then
    r <- cpu_physical_memory_map NEMA_CL_MEM_START sizeof_nema_cmdlist_t ;;
    let len := snd r in
    if negb (len =? sizeof_nema_cmdlist_t) then exit_failure
    else fun w => process_cl (cl_mem w) w
  else if (offset =? NEMA_REG_SIG) && (val =? NEMA_REG_OP_SIGNAL_RECEIVED) then
    qemu_irq_lower
  else ret tt.

Definition on_nema_io_read (addr size : Z) : M Z := ret 0.

(* ------------------------------------------------------------------ *)
(** ** Vocabulary of the properties *)

(** The drawing operations. *)
Definition is_draw_op (o : Z) : bool :=
  (o =? NEMA_OP_DRAW_LINE) || (o =? NEMA_OP_BLIT) || (o =? NEMA_OP_FILL_RECT)
  || (o =? NEMA_OP_DRAW_RECT) || (o =? NEMA_OP_FILL_RECT_ROUNDED)
  || (o =? NEMA_OP_DRAW_RECT_ROUNDED).

(** The two operations of the compositor backend. *)
Definition is_composite_op (o : Z) : bool :=
  (o =? NEMA_OP_BLIT) || (o =? NEMA_OP_FILL_RECT).

Definition has_flag (mode flag : Z) : bool := negb (Z.land mode flag =? 0).

(** Readiness of the pipeline, as the four invariants word it: a destination
    is bound, the clip has been set, a mask is bound exactly when the
    has-mask flag is on, the constant colour is set exactly when the
    has-opacity flag is on. *)
Definition ctx_ready (ds : NEMAState) (ctx : pipeline_ctx_t) : bool :=
  has_clip_set ds
  && negb (is_null (dest_tex ctx)) && negb (is_null (dest_surface ctx))
  && Bool.eqb (negb (is_null (mask_tex ctx)))
       (has_flag (blending_mode ctx) NEMA_BL_MASK)
  && Bool.eqb (const_color_set ctx)
       (has_flag (blending_mode ctx) NEMA_BL_OPA).

(** The clip state of the device. *)
Definition clip_state (ds : NEMAState)
  : bool * pixman_region16_t * nema_region_t :=
  (has_clip_set ds, pixman_clip_region ds, nema_clip_region ds).

(** The handler invocations of a log, in order. *)
Fixpoint dispatches (l : list event)
  : list (Z * nema_cmd_t * pipeline_ctx_t) :=
  match l with
  | [] => []
  | Dispatch i cmd ctx :: r => (i, cmd, ctx) :: dispatches r
  | _ :: r => dispatches r
  end.

Definition irq_raises (l : list event) : nat :=
  length (filter is_irq_raise l).

(** The records [l] paired with their indices [i], [i + 1], ... *)
Fixpoint indexed_from (i : Z) (l : list nema_cmd_t)
  : list (Z * nema_cmd_t) :=
  match l with
  | [] => []
  | c :: r => (i, c) :: indexed_from (i + 1) r
  end.

(** The list read as a sequence: the handlers of the records [cmds],
    numbered from [i] on, run one after the other, each on the context the
    one before it left and in the world it left; a handler that does not
    return ends the run.  Every invocation is marked in the log. *)
Fixpoint run_records (i : Z) (cmds : list nema_cmd_t) (ctx : pipeline_ctx_t)
  : M pipeline_ctx_t :=
  match cmds with
  | [] => ret ctx
  | cmd :: rest =>
      emit (Dispatch i cmd ctx) ;;;
      ctx' <- process_cmd cmd ctx ;;
      run_records (i + 1) rest ctx'
  end.

(** The calls of a handler: everything but dispatching and the interrupt. *)
Definition handler_event (e : event) : Prop :=
  match e with
  | Dispatch _ _ _ | IrqRaise | IrqLower => False
  | _ => True
  end.

(** The clip a logged paint was issued under. *)
Definition paint_clip (e : event) : option nema_region_t :=
  match e with
  | CairoPaint c => cr_clip c
  | _ => None
  end.

(** What [clean_up_ctx] logs: the write-back of the destination mapping. *)
Definition unmap_calls (ctx : pipeline_ctx_t) : list event :=
  match dest_tex ctx with
  | Some img =>
      [Unmap (img_data img) (uint32 (img_stride img * img_height img))]
  | None => []
  end.

(** The next multiple of 4 at or above [s]. *)
Definition round_up4 (s : Z) : Z := (s + 3) / 4 * 4.



(** The top byte of a 32-bit colour, and the values of a byte. *)
Definition top_byte (c : Z) : Z := (c / 16777216) mod 256.

Definition is_byte (b : Z) : Prop := 0 <= b < 256.

(** A computation keeps a relation between the world it starts in and the
    world it leaves. *)
Definition keeps (R : world -> world -> Prop) {A} (m : M A) : Prop :=
  forall w, R w (snd (m w)).

(** The log grows, by calls of handlers only. *)
Definition extends (w w' : world) : Prop :=
  exists new, calls w' = calls w ++ new /\ Forall handler_event new.

(** The device state is untouched. *)
Definition same_dev (w w' : world) : Prop := dev w' = dev w.

(** A computation that indexes no array outside its bounds. *)
Definition in_bounds {A} (m : M A) : Prop :=
  forall w j, fst (m w) <> Undefined (ArrayIndex j).

(** The guest stores a new command list in the list block. *)
Definition store_list (cl : nema_cmdlist_t) (w : world) : world :=
  {| dev := dev w; ram := ram w; itcm := itcm w; phys_map := phys_map w;
     cl_mem := cl; calls := calls w |}.

(* ------------------------------------------------------------------ *)
(** ** Sample inputs *)

Definition sample_cmd (o sel ua ub uc ia ib : Z) : nema_cmd_t :=
  {| op := o; addr_a := 4096; addr_b := 0; u_int_8_a := sel;
     u_int_a := ua; u_int_b := ub; u_int_c := uc;
     int_a := ia; int_b := ib; int_c := 0; int_d := 0 |}.

(** A list holding [cmds], the rest of the array zeroed. *)
Definition sample_list (cmds : list nema_cmd_t) : nema_cmdlist_t :=
  {| cl_list := cmds ++ repeat (sample_cmd 0 0 0 0 0 0 0)
                          (250 - length cmds);
     next_cmd_slot := Z.of_nat (length cmds) |}.

(** The device after reset: line low, no clip. *)
Definition dev_reset : NEMAState :=
  {| inst_processed := false; has_clip_set := false;
     pixman_clip_region :=
       {| rg_x := 0; rg_y := 0; rg_width := 0; rg_height := 0 |};
     nema_clip_region :=
       {| reg_x := 0; reg_y := 0; reg_w := 0; reg_h := 0 |} |}.

Definition dev_clipped : NEMAState :=
  {| inst_processed := false; has_clip_set := true;
     pixman_clip_region :=
       {| rg_x := 0; rg_y := 0; rg_width := 8; rg_height := 8 |};
     nema_clip_region :=
       {| reg_x := 0; reg_y := 0; reg_w := 8; reg_h := 8 |} |}.

(** A machine whose RAM holds the byte 7 everywhere, maps what is asked
    for, and has no ITCM. *)
Definition sample_world (d : NEMAState) (cl : nema_cmdlist_t) : world :=
  {| dev := d; ram := fun _ => 7; itcm := fun _ => None;
     phys_map := fun _ len => len; cl_mem := cl; calls := [] |}.

(** The machine at rest: reset device, empty list. *)
Definition idle_world : world := sample_world dev_reset (sample_list []).

(** BIND_TEX of an 8x8 destination of stride 32, SET_CLIP to its bounds,
    SET_BLEND_FILL simple, FILL_RECT and DRAW_RECT of the bounds in opaque
    red. *)
Definition bind_dest_8x8 : nema_cmd_t := sample_cmd 1 1 8 8 0 32 0.
Definition set_clip_8x8 : nema_cmd_t := sample_cmd 2 0 8 8 0 0 0.
Definition set_blend_fill_simple : nema_cmd_t := sample_cmd 4 0 1 0 0 0 0.
Definition fill_red_8x8 : nema_cmd_t := sample_cmd 8 0 8 8 4294901760 0 0.
Definition draw_rect_8x8 : nema_cmd_t := sample_cmd 9 0 8 8 4294901760 0 0.

(** The list of the red-square scenario, and a second list that binds and
    fills without setting the clip again. *)
Definition scenario_list : nema_cmdlist_t :=
  sample_list
    [bind_dest_8x8; set_clip_8x8; set_blend_fill_simple; fill_red_8x8].

Definition second_list : nema_cmdlist_t :=
  sample_list [bind_dest_8x8; fill_red_8x8].

(** An array full of [SET_CLIP] records with a count of 251. *)
Definition oversized_list : nema_cmdlist_t :=
  {| cl_list := repeat set_clip_8x8 250; next_cmd_slot := 251 |}.




(** A context with an 8x8 destination bound and nothing else. *)
Definition ctx_dest_8x8 : pipeline_ctx_t :=
  let data := MappedBits 4096 256 in
  set_dest_surface
    (Some (cairo_image_surface_create_for_data data 8 8 32))
    (set_dest_tex
       (Some (pixman_image_create_bits PIXMAN_a8r8g8b8 8 8 data 32))
       ctx_zero).

(** The same with blending [SIMPLE | OPA] and a half-opaque constant
    colour. *)
Definition ctx_dest_opa : pipeline_ctx_t :=
  set_blending BLEND_FILL 5 (set_const_color 2147483648 ctx_dest_8x8).


(** A context with an 8x8 destination, a 2x2 mask of stride 4, blending
    [MASK | OPA] and a half-opaque constant colour. *)
Definition ctx_masked_opa : pipeline_ctx_t :=
  set_mask_tex
    (Some (pixman_image_create_bits PIXMAN_a8 2 2
             (OwnedBits [255; 128; 0; 0; 64; 1; 0; 0]) 4))
    (set_blending BLEND_FILL 6 (set_const_color 2147483648 ctx_dest_8x8)).

(* ------------------------------------------------------------------ *)
(** ** Further vocabulary *)

(** The geometry of a destination bind of which pixman and cairo make an
    image over the buffer they are handed: a stride that is a whole number
    of 32-bit words and holds a row of 32-bit pixels, and a width and a
    height within the 32767 of cairo. *)
Definition image_geometry_accepted (cmd : nema_cmd_t) : Prop :=
  int_a cmd mod 4 = 0 /\
  0 <= u_int_a cmd <= 32767 /\ 0 <= u_int_b cmd <= 32767 /\
  4 * u_int_a cmd <= int_a cmd.

(** Two commands run one after the other on the same context. *)
Definition run2 (c1 c2 : nema_cmd_t) (ctx : pipeline_ctx_t)
  : M pipeline_ctx_t :=
  ctx' <- process_cmd c1 ctx ;; process_cmd c2 ctx'.

(** The commands that only set state: clip, blend mode, constant colour. *)
Definition is_state_op (o : Z) : bool :=
  (o =? NEMA_OP_SET_CLIP) || (o =? NEMA_OP_SET_BLEND_BLIT)
  || (o =? NEMA_OP_SET_BLEND_FILL) || (o =? NEMA_OP_SET_CONST_COLOR).

(** The register writes of a guest, in order; before each one the guest has
    put a command list in the list block. *)
Fixpoint guest_writes (ws : list (nema_cmdlist_t * Z * Z)) : M unit :=
  match ws with
  | [] => ret tt
  | (cl, offset, val) :: rest =>
      (fun w => on_nema_io_write offset val 4 (store_list cl w)) ;;;
      guest_writes rest
  end.

Definition is_submit (x : nema_cmdlist_t * Z * Z) : bool :=
  let '(_, offset, val) := x in
  (offset =? NEMA_REG_OP) && (val =? NEMA_REG_OP_SUBMIT_COMMAND_LIST).

Definition is_acknowledge (x : nema_cmdlist_t * Z * Z) : bool :=
  let '(_, offset, val) := x in
  (offset =? NEMA_REG_SIG) && (val =? NEMA_REG_OP_SIGNAL_RECEIVED).

(** The level of the completion line after a run of writes that all
    returned: a submission sets it, an acknowledge clears it. *)
Fixpoint line_after (level : bool) (ws : list (nema_cmdlist_t * Z * Z))
  : bool :=
  match ws with
  | [] => level
  | x :: rest =>
      line_after (if is_submit x then true
                  else if is_acknowledge x then false else level) rest
  end.

(** The value of a little-endian sequence of bytes. *)
Fixpoint le_value (bytes : list Z) : Z :=
  match bytes with
  | [] => 0
  | b :: r => b + 256 * le_value r
  end.

(* ------------------------------------------------------------------ *)
(** ** The host timer (timer.c, timer.h) *)

Module Timer.

Definition HOST_TIME_OP_OFFSET : Z := 0.
Definition HOST_TIME_VALUE_OFFSET : Z := 1.

(** The two latched values of [struct TimerState], both [int64_t]. *)
Record TimerState : Type := {
  time_ms : Z;
  time_us : Z
}.

(** Modelled from the spec: [qemu_clock_get_ms] and [qemu_clock_get_us] are
    QEMU core code outside the sources.  The host clock exposes wall-clock
    milliseconds and microseconds; what it shows at the moment of a call is
    an argument of the call. *)
Record host_clock : Type := {
  clock_ms : Z;
  clock_us : Z
}.

(** [uint8_t val = (t >> offset * 8) & 0xFF] with [uint8_t offset]. *)
Definition time_byte (t offset : Z) : Z :=
  uint8 (Z.land (Z.shiftr t (uint8 offset * 8)) 255).

Definition on_timer_io_read (now : host_clock) (addr size : Z)
    (ds : TimerState) : Z * TimerState :=
  let ds :=
    if addr =? HOST_TIME_VALUE_OFFSET + 7
    then {| time_ms := clock_ms now; time_us := time_us ds |} else ds in
  if (HOST_TIME_VALUE_OFFSET <=? addr) && (addr <? HOST_TIME_VALUE_OFFSET + 8)
  then (time_byte (time_ms ds) (addr - HOST_TIME_VALUE_OFFSET), ds)
  else
    let ds :=
      if addr =? HOST_TIME_VALUE_OFFSET + 15
      then {| time_ms := time_ms ds; time_us := clock_us now |} else ds in
    if (HOST_TIME_VALUE_OFFSET + 8 <=? addr)
       && (addr <? HOST_TIME_VALUE_OFFSET + 16)
    then (time_byte (time_us ds) (addr - HOST_TIME_VALUE_OFFSET - 8), ds)
    else (0, ds).

Definition on_timer_io_write (addr val size : Z) (ds : TimerState)
  : TimerState := ds.

(** A sequence of register reads by the guest, each at the moment the host
    clock shows the given value; the values read, in order. *)
Fixpoint read_seq (reads : list (host_clock * Z)) (ds : TimerState)
  : list Z * TimerState :=
  match reads with
  | [] => ([], ds)
  | (now, addr) :: rest =>
      let (v, ds1) := on_timer_io_read now addr 1 ds in
      let (vs, ds2) := read_seq rest ds1 in
      (v :: vs, ds2)
  end.

End Timer.

(* ------------------------------------------------------------------ *)
(** ** The RAM framebuffer display (ram_disp.c, ram_disp.h) *)

Module RamDisp.

Definition RAM_DISPLAY_READY_SIGNAL : Z := 0.
Definition RAM_DISPLAY_WRITE_SIGNAL : Z := 1.
Definition RAM_DISPLAY_WRITE_OFFSET : Z := 1.
Definition RAM_DISPLAY_DATA_ADDRESS : Z := 562036736.

(** What a display surface is created from
    ([qemu_create_displaysurface_from], [pixman_image_create_bits]): width,
    height and stride, which both take as [int], and the mapping its data
    pointer views, as the guest address mapped and the length granted. *)
Record DisplaySurface : Type := {
  sf_width : Z;
  sf_height : Z;
  sf_stride : Z;
  sf_data : Z;
  sf_len : Z
}.

(** The fields of [struct RamDisplayState] the file uses.  [console_shows]
    tells whether the surface of the console is [display_surface] (the test
    [ds->display_surface != qemu_console_surface(con)]). *)
Record RamDisplayState : Type := {
  is_updating : bool;
  display_surface : option DisplaySurface;
  screen_size : Z;                 (* uint32_t *)
  update_complete_irq : bool;      (* level of the line *)
  console_shows : bool
}.

(** The calls that leave the file. *)
Inductive call : Type :=
| MapFb (addr len : Z)      (* cpu_physical_memory_map of the framebuffer *)
| ReplaceSurface            (* dpy_gfx_replace_surface *)
| UpdateFull                (* dpy_gfx_update_full *)
| LineRaise                 (* qemu_irq_raise(ds->update_complete_irq) *)
| LineLower.                (* qemu_irq_lower(ds->update_complete_irq) *)

Definition is_map (c : call) : bool :=
  match c with MapFb _ _ => true | _ => false end.

Definition is_raise (c : call) : bool :=
  match c with LineRaise => true | _ => false end.

Definition set_updating (b : bool) (ds : RamDisplayState) :=
  {| is_updating := b; display_surface := display_surface ds;
     screen_size := screen_size ds;
     update_complete_irq := update_complete_irq ds;
     console_shows := console_shows ds |}.

(** The update requests that were accepted and not yet answered: one or
    none. *)
Definition pending (ds : RamDisplayState) : nat :=
  if is_updating ds then 1 else 0.

Definition set_line (b : bool) (ds : RamDisplayState) :=
  {| is_updating := is_updating ds; display_surface := display_surface ds;
     screen_size := screen_size ds; update_complete_irq := b;
     console_shows := console_shows ds |}.

Section Platform.
(** [PIXMAN_FORMAT_BPP(COLOR_FORMAT)], a macro of pixman, and the length
    [cpu_physical_memory_map] grants for a request (address, length), are
    taken as given.  The calls into the console and on the interrupt line
    are recorded in the order they are made; raising and lowering set the
    level of the line, as for the GPU. *)
Variable bpp : Z.
Variable grant : Z -> Z -> Z.

(** [linesize = ds->screen_size * PIXMAN_FORMAT_BPP(COLOR_FORMAT) / 8], in
    32-bit unsigned arithmetic. *)
Definition linesize (ds : RamDisplayState) : Z :=
  uint32 (screen_size ds * bpp) / 8.

(** [size = stride * (ds->screen_size - 1) + linesize], in [hwaddr]. *)
Definition fb_size (ds : RamDisplayState) : Z :=
  (linesize ds * uint32 (screen_size ds - 1) + linesize ds)
    mod 18446744073709551616.

Definition update_display_surface (ds : RamDisplayState)
  : outcome (RamDisplayState * list call) :=
  if screen_size ds =? 0 then Exited
  else
    let stride := linesize ds in
    let size := fb_size ds in
    let mapsize := grant RAM_DISPLAY_DATA_ADDRESS size in
    if negb (size =? mapsize) then Exited
    else
      let surface :=
        {| sf_width := int32 (screen_size ds);
           sf_height := int32 (screen_size ds);
           sf_stride := int32 stride; sf_data := RAM_DISPLAY_DATA_ADDRESS;
           sf_len := mapsize |} in
      Done ({| is_updating := is_updating ds;
               display_surface := Some surface;
               screen_size := screen_size ds;
               update_complete_irq := update_complete_irq ds;
               console_shows :=
                 match display_surface ds with
                 | None => false
                 | Some _ => console_shows ds
                 end |},
            [MapFb RAM_DISPLAY_DATA_ADDRESS size]).

Definition ram_fb_write (addr val size : Z) (ds : RamDisplayState)
  : outcome (RamDisplayState * list call) :=
  if (addr =? RAM_DISPLAY_WRITE_OFFSET) && (val =? RAM_DISPLAY_WRITE_SIGNAL)
  then
    if is_updating ds then Done (ds, [])
    else update_display_surface (set_updating true ds)
  else if (addr =? RAM_DISPLAY_WRITE_OFFSET)
          && (val =? RAM_DISPLAY_READY_SIGNAL)
  then Done (set_line false ds, [LineLower])
  else Done (ds, []).

Definition ram_fb_read (addr size : Z) (ds : RamDisplayState) : Z := 0.

Definition update_qemu_console (ds : RamDisplayState)
  : RamDisplayState * list call :=
  match display_surface ds with
  | Some _ =>
      if negb (console_shows ds) then
        ({| is_updating := is_updating ds;
            display_surface := display_surface ds;
            screen_size := screen_size ds;
            update_complete_irq := update_complete_irq ds;
            console_shows := true |}, [ReplaceSurface; UpdateFull])
      else (ds, [UpdateFull])
  | None => (ds, [UpdateFull])
  end.

Definition signal_display_update_complete (ds : RamDisplayState)
  : RamDisplayState * list call :=
  if is_updating ds
  then (set_line true (set_updating false ds), [LineRaise])
  else (ds, []).

Definition display_update_callback (ds : RamDisplayState)
  : RamDisplayState * list call :=
  let (ds1, l1) := update_qemu_console ds in
  let (ds2, l2) := signal_display_update_complete ds1 in
  (ds2, l1 ++ l2).

(** What reaches the device: a guest write to its register region, or the
    refresh of the console ([gfx_update]). *)
Inductive input : Type :=
| GuestWrite (addr val : Z)
| GfxUpdate.

Definition step (i : input) (ds : RamDisplayState)
  : outcome (RamDisplayState * list call) :=
  match i with
  | GuestWrite addr val => ram_fb_write addr val 1 ds
  | GfxUpdate => Done (display_update_callback ds)
  end.

(** A run of inputs; the calls made, in order. *)
Fixpoint run (inputs : list input) (ds : RamDisplayState)
  : outcome (RamDisplayState * list call) :=
  match inputs with
  | [] => Done (ds, [])
  | i :: rest =>
      match step i ds with
      | Done (ds1, l1) =>
          match run rest ds1 with
          | Done (ds2, l2) => Done (ds2, l1 ++ l2)
          | Exited => Exited
          | Undefined u => Undefined u
          end
      | Exited => Exited
      | Undefined u => Undefined u
      end
  end.
End Platform.

(** The state [ram_display_realize_fn] leaves, with the screen size the
    board sets. *)
Definition realized (n : Z) : RamDisplayState :=
  {| is_updating := false; display_surface := None; screen_size := n;
     update_complete_irq := false; console_shows := false |}.

End RamDisp.

(* ------------------------------------------------------------------ *)
(** ** The RAM table of the board *)

Module Board.
Import Stdlib.Strings.String.

Definition IS_ALIAS : Z := 1.
Definition IS_ROM : Z := 2.
Definition MiB : Z := 1048576.

(** [struct RAMInfo]; a [NULL] name is [None]. *)
Record RAMInfo : Type := {
  name : option string;
  base : Z;        (* uint32_t *)
  size : Z;        (* uint32_t *)
  mpc : Z;         (* int; -1 for "not behind an MPC" *)
  mrindex : Z;     (* int; -1 for the system RAM *)
  flags : Z
}.

(** The outcome of a lookup: a value, a failed assertion
    ([g_assert], [assert], [g_assert_not_reached]), or a walk past the end
    of a table that has no terminating entry. *)
Inductive lookup (A : Type) : Type :=
| Found (a : A)
| AssertFailed
| PastEnd.
Arguments Found {A} a.
Arguments AssertFailed {A}.
Arguments PastEnd {A}.

(** [slate_raminfo]: sram, sram 2, QSPI, DDR, and the entry with a [NULL]
    name that ends the table. *)
Definition slate_raminfo : list RAMInfo :=
  [ {| name := Some "sram"%string; base := 16777216; size := 2 * MiB; mpc := 0;
       mrindex := 1; flags := 0 |};
    {| name := Some "sram 2"%string; base := 553648128; size := 4 * MiB; mpc := -1;
       mrindex := 3; flags := 0 |};
    {| name := Some "QSPI"%string; base := 671088640; size := 8 * MiB; mpc := 1;
       mrindex := 4; flags := IS_ROM |};
    {| name := Some "DDR"%string; base := 1610612736; size := 128 * MiB; mpc := 2;
       mrindex := -1; flags := 0 |};
    {| name := None; base := 0; size := 0; mpc := 0; mrindex := 0;
       flags := 0 |} ].

(** [set_default_ram_info]: the size and the name of the first entry whose
    [mrindex] is negative. *)
Fixpoint set_default_ram_info (p : list RAMInfo)
  : lookup (Z * option string) :=
  match p with
  | [] => PastEnd
  | e :: rest =>
      match name e with
      | None => AssertFailed
      | Some _ =>
          if mrindex e <? 0 then Found (size e, name e)
          else set_default_ram_info rest
      end
  end.

Definition is_for_mpc (m : Z) (e : RAMInfo) : bool :=
  (mpc e =? m) && (Z.land (flags e) IS_ALIAS =? 0).

(** The loop of [find_raminfo_for_mpc], with the entry found so far. *)
Fixpoint find_raminfo_loop (p : list RAMInfo) (m : Z)
    (found : option RAMInfo) : lookup (option RAMInfo) :=
  match p with
  | [] => PastEnd
  | e :: rest =>
      match name e with
      | None => Found found
      | Some _ =>
          if is_for_mpc m e then
            match found with
            | Some _ => AssertFailed
            | None => find_raminfo_loop rest m (Some e)
            end
          else find_raminfo_loop rest m found
      end
  end.

Definition find_raminfo_for_mpc (raminfo : list RAMInfo) (m : Z)
  : lookup RAMInfo :=
  match find_raminfo_loop raminfo m None with
  | Found (Some e) => Found e
  | Found None => AssertFailed
  | AssertFailed => AssertFailed
  | PastEnd => PastEnd
  end.

Fixpoint boot_ram_loop (p : list RAMInfo) : lookup Z :=
  match p with
  | [] => PastEnd
  | e :: rest =>
      match name e with
      | None => AssertFailed
      | Some _ => if base e =? 0 then Found (size e) else boot_ram_loop rest
      end
  end.

(** [boot_ram_size], from the [boot_ram_size] and the [raminfo] of the
    machine class. *)
Definition boot_ram_size (class_boot_ram_size : Z) (raminfo : list RAMInfo)
  : lookup Z :=
  if negb (class_boot_ram_size =? 0) then Found class_boot_ram_size
  else boot_ram_loop raminfo.

(** The entries of a table before its terminating entry. *)
Fixpoint live (p : list RAMInfo) : list RAMInfo :=
  match p with
  | [] => []
  | e :: rest =>
      match name e with
      | None => []
      | Some _ => e :: live rest
      end
  end.

(** A table ends in an entry with a [NULL] name. *)
Definition terminated (p : list RAMInfo) : Prop :=
  exists e, In e p /\ name e = None.

End Board.

(* ================================================================== *)
(** * Properties *)

(** ** Frames: what a call leaves alone *)

Lemma log_calls_app l1 l2 w :
  log_calls l2 (log_calls l1 w) = log_calls (l1 ++ l2) w.
Proof. unfold log_calls; simpl. now rewrite app_assoc. Qed.

Lemma log_calls_nil w : log_calls [] w = w.
Proof. destruct w; unfold log_calls; simpl. now rewrite app_nil_r. Qed.

Section Frame.
(** A relation between the world before and after, closed under
    sequencing. *)
Variable R : world -> world -> Prop.
Hypothesis R_refl : forall w, R w w.
Hypothesis R_trans : forall a b c, R a b -> R b c -> R a c.

Local Abbreviation keeps := (keeps R).

Lemma keeps_ret {A} (a : A) : keeps (ret a).
Proof. intro w; apply R_refl. Qed.

Lemma keeps_exit {A} : keeps (@exit_failure A).
Proof. intro w; apply R_refl. Qed.

Lemma keeps_undefined {A} u : keeps (@undefined A u).
Proof. intro w; apply R_refl. Qed.

Lemma keeps_get_dev : keeps get_dev.
Proof. intro w; apply R_refl. Qed.

Lemma keeps_bind {A B} (m : M A) (k : A -> M B) :
  keeps m -> (forall a, keeps (k a)) -> keeps (bind m k).
Proof.
  intros Hm Hk w. unfold bind. specialize (Hm w).
  destruct (m w) as [[a | | u] w1]; simpl in *; auto.
  eapply R_trans; [exact Hm | apply Hk].
Qed.

Lemma keeps_if {A} (b : bool) (m1 m2 : M A) :
  keeps m1 -> keeps m2 -> keeps (if b then m1 else m2).
Proof. destruct b; auto. Qed.

(** The relation admits the calls of a handler and a rewrite of RAM. *)
Hypothesis R_emit : forall e w, handler_event e -> R w (log_calls [e] w).
Hypothesis R_ram : forall m w, R w (snd (set_ram m w)).

Lemma keeps_emit e : handler_event e -> keeps (emit e).
Proof. intros He w. now apply R_emit. Qed.

Ltac frame :=
  repeat first
    [ apply keeps_ret | apply keeps_exit | apply keeps_undefined
    | apply keeps_get_dev | apply keeps_emit; exact I
    | apply keeps_bind; [ | intro ]
    | apply keeps_if
    | match goal with
      | |- keeps (match ?x with _ => _ end) => destruct x
      | |- keeps (let (_, _) := ?x in _) => destruct x
      end ].

Lemma keeps_unmap_pixman_imgs ctx : keeps (unmap_pixman_imgs ctx).
Proof. unfold unmap_pixman_imgs, unmap_pixman_img. frame. Qed.

Lemma keeps_clean_up_ctx ctx : keeps (clean_up_ctx ctx).
Proof.
  unfold clean_up_ctx. apply keeps_bind; [ apply keeps_unmap_pixman_imgs | ].
  intro; apply keeps_ret.
Qed.

Lemma keeps_validate_ctx ctx : keeps (validate_ctx ctx).
Proof. unfold validate_ctx. frame. Qed.

Lemma keeps_blend_opacity_if_needed ctx :
  keeps (blend_opacity_if_needed ctx).
Proof.
  unfold blend_opacity_if_needed, undefined. frame.
  all: intro w; first [ exact (R_refl w) | apply R_ram ].
Qed.

Lemma keeps_execute_fill_rect cmd ctx : keeps (execute_fill_rect cmd ctx).
Proof.
  unfold execute_fill_rect, pixman_image_composite.
  apply keeps_bind; [ apply keeps_validate_ctx | intro ].
  apply keeps_bind; [ apply keeps_blend_opacity_if_needed | intro ].
  frame.
Qed.

Lemma keeps_execute_blit ctx : keeps (execute_blit ctx).
Proof.
  unfold execute_blit, pixman_image_composite, assert_not_null.
  apply keeps_bind; [ apply keeps_validate_ctx | intro ].
  apply keeps_bind; [ frame | intro ].
  apply keeps_bind; [ frame | intro ].
  apply keeps_bind; [ apply keeps_blend_opacity_if_needed | intro ].
  frame.
Qed.

Lemma keeps_execute_draw_line cmd ctx : keeps (execute_draw_line cmd ctx).
Proof. unfold execute_draw_line, cairo_prepare_source, cairo_draw. frame. Qed.

Lemma keeps_execute_draw_rect cmd ctx : keeps (execute_draw_rect cmd ctx).
Proof. unfold execute_draw_rect, cairo_draw. frame. Qed.

Lemma keeps_execute_fill_rect_rounded cmd ctx :
  keeps (execute_fill_rect_rounded cmd ctx).
Proof. unfold execute_fill_rect_rounded, cairo_draw. frame. Qed.

Lemma keeps_execute_draw_rect_rounded cmd ctx :
  keeps (execute_draw_rect_rounded cmd ctx).
Proof. unfold execute_draw_rect_rounded, cairo_draw. frame. Qed.

Lemma keeps_read_tex cmd format is_write :
  keeps (read_tex cmd format is_write).
Proof.
  unfold read_tex. apply keeps_bind.
  - destruct is_write.
    + apply keeps_bind; [ intro w; apply R_refl | intro ]. frame.
    + intro w. destruct (fetch_tex _ _ _); apply R_refl.
  - intro data. destruct format; [ apply keeps_ret | ].
    intro w. destruct (round_mask_if_needed _ _ _) as [[r | ] | | u];
      apply R_refl.
Qed.

(** Every command but [SET_CLIP] keeps the relation. *)
Lemma keeps_process_cmd_but_clip cmd ctx :
  op cmd <> NEMA_OP_SET_CLIP -> keeps (process_cmd cmd ctx).
Proof.
  intro Hop. unfold process_cmd.
  destruct (op cmd =? NEMA_OP_SET_CLIP) eqn:E;
    [ apply Z.eqb_eq in E; contradiction | ].
  repeat first
    [ apply keeps_if
    | apply keeps_bind;
        [ first [ apply keeps_read_tex | apply keeps_execute_blit
                | apply keeps_execute_fill_rect
                | apply keeps_execute_draw_line
                | apply keeps_execute_fill_rect_rounded
                | apply keeps_execute_draw_rect_rounded
                | apply keeps_execute_draw_rect ]
        | intro ]
    | apply keeps_clean_up_ctx | apply keeps_ret | apply keeps_exit
    | match goal with
      | |- keeps (let (_, _) := ?x in _) => destruct x
      end ].
Qed.

(** With a relation that also admits [SET_CLIP], every command does. *)
Hypothesis R_dev : forall d w, R w (snd (set_dev d w)).

Lemma keeps_process_cmd cmd ctx : keeps (process_cmd cmd ctx).
Proof.
  destruct (Z.eq_dec (op cmd) NEMA_OP_SET_CLIP) as [E | E];
    [ | now apply keeps_process_cmd_but_clip ].
  unfold process_cmd. rewrite E. simpl. unfold set_clip.
  apply keeps_bind; [ | intro; apply keeps_ret ].
  apply keeps_bind; [ apply keeps_get_dev | intros d w; apply R_dev ].
Qed.
End Frame.

Lemma outcome_eq_done (o : outcome unit) : o = Done tt \/ o <> Done tt.
Proof. destruct o as [[] | | u]; [ now left | right | right ]; discriminate. Qed.

(** ** The two frames used below *)

Lemma extends_refl w : extends w w.
Proof. exists []. split; [ now rewrite app_nil_r | constructor ]. Qed.

Lemma extends_trans a b c : extends a b -> extends b c -> extends a c.
Proof.
  intros [n1 [E1 F1]] [n2 [E2 F2]]. exists (n1 ++ n2). split.
  - now rewrite E2, E1, app_assoc.
  - apply Forall_app; auto.
Qed.

Lemma extends_emit e w : handler_event e -> extends w (log_calls [e] w).
Proof. intro He. exists [e]. split; [ reflexivity | now constructor ]. Qed.

Lemma extends_ram m w : extends w (snd (set_ram m w)).
Proof. exists []. split; [ simpl; now rewrite app_nil_r | constructor ]. Qed.

Lemma extends_dev d w : extends w (snd (set_dev d w)).
Proof. exists []. split; [ simpl; now rewrite app_nil_r | constructor ]. Qed.

Lemma process_cmd_extends cmd ctx w :
  extends w (snd (process_cmd cmd ctx w)).
Proof.
  apply (keeps_process_cmd extends extends_refl extends_trans extends_emit
           extends_ram extends_dev).
Qed.

Lemma process_cmd_same_dev cmd ctx w :
  op cmd <> NEMA_OP_SET_CLIP -> dev (snd (process_cmd cmd ctx w)) = dev w.
Proof.
  intro Hop.
  apply (keeps_process_cmd_but_clip same_dev); unfold same_dev; auto.
  intros a b c H1 H2. now rewrite H2.
Qed.

Lemma dispatches_app l1 l2 :
  dispatches (l1 ++ l2) = dispatches l1 ++ dispatches l2.
Proof.
  induction l1 as [ | e l1 IH ]; [ reflexivity | ].
  destruct e; simpl; now rewrite IH.
Qed.

Lemma irq_raises_app l1 l2 :
  irq_raises (l1 ++ l2) = (irq_raises l1 + irq_raises l2)%nat.
Proof. unfold irq_raises. now rewrite filter_app, length_app. Qed.

Lemma handler_events_silent l :
  Forall handler_event l -> dispatches l = [] /\ irq_raises l = 0%nat.
Proof.
  induction 1 as [ | e l He _ [IH1 IH2] ]; [ now split | ].
  destruct e; simpl in He; try contradiction; now split.
Qed.

Lemma skipn_nth_error {A} (l : list A) n a :
  nth_error l n = Some a -> skipn n l = a :: skipn (S n) l.
Proof.
  revert l. induction n as [ | n IH ]; intros [ | b l ] H;
    try discriminate; simpl in *.
  - now inversion H.
  - now apply IH.
Qed.

(** ** The dispatch loop *)

Lemma dispatch_step cmd ctx i w r w' :
  process_cmd cmd ctx (snd (emit (Dispatch i cmd ctx) w)) = (r, w') ->
  exists new,
    calls w' = calls w ++ Dispatch i cmd ctx :: new /\
    Forall handler_event new.
Proof.
  intro H. pose proof (process_cmd_extends cmd ctx
                         (snd (emit (Dispatch i cmd ctx) w))) as [new [E F]].
  rewrite H in E. simpl in E. exists new. split; [ | exact F ].
  now rewrite E, <- app_assoc.
Qed.

Lemma list_at_nth cl i cmd :
  list_at cl i = Some cmd -> nth_error (cl_list cl) (Z.to_nat i) = Some cmd.
Proof. unfold list_at. destruct (i <? 0); [ discriminate | auto ]. Qed.

Lemma list_at_none cl i :
  0 <= i -> list_at cl i = None -> Z.of_nat (length (cl_list cl)) <= i.
Proof.
  intros Hi H. unfold list_at in H.
  destruct (i <? 0) eqn:E; [ apply Z.ltb_lt in E; lia | ].
  apply nth_error_None in H. lia.
Qed.

(** The records from [i] up to [n], when entry [i] is [cmd]. *)
Lemma records_from cl i cmd n :
  list_at cl i = Some cmd -> 0 <= i < n ->
  firstn (Z.to_nat (n - i)) (skipn (Z.to_nat i) (cl_list cl)) =
    cmd :: firstn (Z.to_nat (n - i - 1))
             (skipn (S (Z.to_nat i)) (cl_list cl)).
Proof.
  intros H Hi. rewrite (skipn_nth_error _ _ _ (list_at_nth _ _ _ H)).
  replace (Z.to_nat (n - i)) with (S (Z.to_nat (n - i - 1))) by lia.
  reflexivity.
Qed.

(** What the loop entered at [i] adds to the log: no interrupt, and the
    handler invocations of the records from [i] on, in index order and
    without a gap, up to the record at which the loop stopped; the first one
    is entered on the context the loop was entered with; when the loop runs
    to its end they reach the count. *)
Lemma process_cl_loop_log cl i ctx w :
  0 <= i ->
  exists body k,
    calls (snd (process_cl_loop cl i ctx w)) = calls w ++ body /\
    irq_raises body = 0%nat /\
    (forall j c x, In (j, c, x) (dispatches body) ->
                   i <= j /\ (j = i -> x = ctx)) /\
    (k <= Z.to_nat (uint8 (next_cmd_slot cl) - i))%nat /\
    map fst (dispatches body) =
      indexed_from i (firstn k (skipn (Z.to_nat i) (cl_list cl))) /\
    (fst (process_cl_loop cl i ctx w) = Done tt ->
     k = Z.to_nat (uint8 (next_cmd_slot cl) - i)).
Proof.
  funelim (process_cl_loop cl i ctx w); intro Hi;
    try rewrite <- Heqcall; simpl fst; simpl snd.
  - (* the loop is over *)
    exists [], 0%nat. rewrite app_nil_r. repeat split; try easy; lia.
  - (* the index is outside the array *)
    exists [], 0%nat. rewrite app_nil_r. repeat split; try easy; lia.
  - (* the handler returned: next iteration *)
    destruct (dispatch_step _ _ _ _ _ _ Heq) as [new [E F]].
    destruct (handler_events_silent _ F) as [Fd Fi].
    assert (Hb : uint8 (next_cmd_slot cl) < 256)
      by (unfold uint8; apply Z.mod_pos_bound; lia).
    assert (Hn : uint8 (i + 1) = i + 1)
      by (unfold uint8; apply Z.mod_small; lia).
    rewrite Hn in *.
    destruct (H ltac:(lia)) as [body [k [Eb [Ib [Db [Hk [Fb Kb]]]]]]].
    exists (Dispatch i cmd ctx :: new ++ body), (S k).
    split; [ | split; [ | split; [ | split; [ | split ] ] ] ].
    + rewrite Eb, E, <- app_assoc. reflexivity.
    + change (Dispatch i cmd ctx :: new ++ body)
        with ([Dispatch i cmd ctx] ++ new ++ body).
      rewrite !irq_raises_app, Fi, Ib. reflexivity.
    + simpl. rewrite dispatches_app, Fd. simpl.
      intros j c x [Hj | Hj].
      * inversion Hj; subst. split; [ lia | auto ].
      * apply Db in Hj. split; [ lia | intro; lia ].
    + lia.
    + simpl. rewrite dispatches_app, Fd. simpl. rewrite Fb.
      rewrite (skipn_nth_error _ _ _ (list_at_nth _ _ _ Heq0)).
      simpl. replace (Z.to_nat (i + 1)) with (S (Z.to_nat i)) by lia.
      reflexivity.
    + intro Hd. rewrite (Kb Hd). lia.
  - (* the handler exited *)
    destruct (dispatch_step _ _ _ _ _ _ Heq) as [new [E F]].
    destruct (handler_events_silent _ F) as [Fd Fi].
    exists (Dispatch i cmd ctx :: new), 1%nat.
    split; [ | split; [ | split; [ | split; [ | split ] ] ] ].
    + exact E.
    + change (Dispatch i cmd ctx :: new) with ([Dispatch i cmd ctx] ++ new).
      now rewrite irq_raises_app, Fi.
    + simpl. rewrite Fd. intros j c x [Hj | []].
      inversion Hj; subst. split; [ lia | auto ].
    + lia.
    + simpl. rewrite Fd.
      now rewrite (skipn_nth_error _ _ _ (list_at_nth _ _ _ Heq0)).
    + discriminate.
  - (* the handler left defined behaviour *)
    destruct (dispatch_step _ _ _ _ _ _ Heq) as [new [E F]].
    destruct (handler_events_silent _ F) as [Fd Fi].
    exists (Dispatch i cmd ctx :: new), 1%nat.
    split; [ | split; [ | split; [ | split; [ | split ] ] ] ].
    + exact E.
    + change (Dispatch i cmd ctx :: new) with ([Dispatch i cmd ctx] ++ new).
      now rewrite irq_raises_app, Fi.
    + simpl. rewrite Fd. intros j c x [Hj | []].
      inversion Hj; subst. split; [ lia | auto ].
    + lia.
    + simpl. rewrite Fd.
      now rewrite (skipn_nth_error _ _ _ (list_at_nth _ _ _ Heq0)).
    + discriminate.
Qed.

(** ** Handlers index no array *)

Lemma in_bounds_ret {A} (a : A) : in_bounds (ret a).
Proof. intros w j; discriminate. Qed.

Lemma in_bounds_exit {A} : in_bounds (@exit_failure A).
Proof. intros w j; discriminate. Qed.

Lemma in_bounds_emit e : in_bounds (emit e).
Proof. intros w j; discriminate. Qed.

Lemma in_bounds_get_dev : in_bounds get_dev.
Proof. intros w j; discriminate. Qed.

Lemma in_bounds_bind {A B} (m : M A) (k : A -> M B) :
  in_bounds m -> (forall a, in_bounds (k a)) -> in_bounds (bind m k).
Proof.
  intros Hm Hk w j. unfold bind. specialize (Hm w j).
  destruct (m w) as [[a | | u] w1]; simpl in *;
    [ apply Hk | discriminate | ].
  intro E. apply Hm. inversion E. reflexivity.
Qed.

Lemma in_bounds_if {A} (b : bool) (m1 m2 : M A) :
  in_bounds m1 -> in_bounds m2 -> in_bounds (if b then m1 else m2).
Proof. destruct b; auto. Qed.

Ltac bounded_with leaf :=
  repeat first
    [ leaf
    | apply in_bounds_ret | apply in_bounds_exit | apply in_bounds_emit
    | apply in_bounds_get_dev
    | apply in_bounds_bind; [ | intro ]
    | apply in_bounds_if
    | match goal with
      | |- in_bounds (match ?x with _ => _ end) => destruct x
      | |- in_bounds (let (_, _) := ?x in _) => destruct x
      end ].

Ltac bounded := bounded_with fail.

Lemma in_bounds_clean_up_ctx ctx : in_bounds (clean_up_ctx ctx).
Proof.
  unfold clean_up_ctx, unmap_pixman_imgs, unmap_pixman_img. bounded.
Qed.

Lemma in_bounds_validate_ctx ctx : in_bounds (validate_ctx ctx).
Proof. unfold validate_ctx. bounded. Qed.

Lemma in_bounds_blend_opacity_if_needed ctx :
  in_bounds (blend_opacity_if_needed ctx).
Proof.
  unfold blend_opacity_if_needed, undefined. bounded.
  all: intros w j; discriminate.
Qed.

Lemma in_bounds_read_tex cmd format is_write :
  in_bounds (read_tex cmd format is_write).
Proof.
  unfold read_tex. apply in_bounds_bind.
  - destruct is_write.
    + apply in_bounds_bind; [ intros w j; discriminate | intro ]. bounded.
    + intros w j. destruct (fetch_tex _ _ _); discriminate.
  - intro data. destruct format; [ apply in_bounds_ret | ].
    intros w j. unfold round_mask_if_needed.
    repeat match goal with
           | |- context [ if ?b then _ else _ ] => destruct b
           end; discriminate.
Qed.

Lemma in_bounds_process_cmd cmd ctx : in_bounds (process_cmd cmd ctx).
Proof.
  unfold process_cmd, execute_blit, execute_fill_rect, execute_draw_line,
    execute_fill_rect_rounded, execute_draw_rect_rounded, execute_draw_rect,
    set_clip, cairo_prepare_source, cairo_draw, pixman_image_composite,
    assert_not_null.
  bounded_with
    ltac:(first [ apply in_bounds_read_tex | apply in_bounds_validate_ctx
                | apply in_bounds_blend_opacity_if_needed
                | apply in_bounds_clean_up_ctx ]).
  all: intros w j; discriminate.
Qed.

(** With the array complete and the count within it, the loop never
    indexes outside the array. *)
Lemma process_cl_loop_in_bounds cl i ctx w j :
  cmdlist_wf cl -> 0 <= next_cmd_slot cl <= NEMA_MAX_CMD_COUNT -> 0 <= i ->
  fst (process_cl_loop cl i ctx w) <> Undefined (ArrayIndex j).
Proof.
  funelim (process_cl_loop cl i ctx w); intros Hwf Hn Hi;
    try rewrite <- Heqcall; simpl fst; try discriminate.
  - (* list[i] with i below the count is an entry of the array *)
    exfalso. unfold list_at in Heq. destruct (i <? 0) eqn:E; [ lia | ].
    apply nth_error_None in Heq. unfold cmdlist_wf in Hwf.
    pose proof l as Hl. unfold uint8, NEMA_MAX_CMD_COUNT in *.
    rewrite Z.mod_small in Hl by lia. lia.
  - apply H; auto. unfold uint8.
    apply Z.mod_pos_bound. lia.
  - pose proof (in_bounds_process_cmd cmd ctx
                  (snd (emit (Dispatch i cmd ctx) w)) j) as Hb.
    rewrite Heq in Hb. intro E. apply Hb. inversion E. reflexivity.
Qed.

(** A loop that dispatches no [SET_CLIP] leaves the device state as it
    found it. *)
Lemma process_cl_loop_same_dev cl i ctx w :
  0 <= i ->
  (forall k c, i <= k < uint8 (next_cmd_slot cl) -> list_at cl k = Some c ->
               op c <> NEMA_OP_SET_CLIP) ->
  dev (snd (process_cl_loop cl i ctx w)) = dev w.
Proof.
  funelim (process_cl_loop cl i ctx w); intros Hi Hc;
    try rewrite <- Heqcall; simpl snd; try reflexivity.
  all: pose proof (process_cmd_same_dev cmd ctx
                     (snd (emit (Dispatch i cmd ctx) w))
                     (Hc i cmd ltac:(lia) Heq0)) as Hd;
       rewrite Heq in Hd; simpl in Hd; try exact Hd.
  assert (Hb : uint8 (next_cmd_slot cl) < 256)
    by (unfold uint8; apply Z.mod_pos_bound; lia).
  assert (Hn : uint8 (i + 1) = i + 1)
    by (unfold uint8; apply Z.mod_small; lia).
  rewrite H, Hd; [ reflexivity | rewrite Hn; lia | ].
  intros k c Hk. apply Hc. rewrite Hn in Hk. lia.
Qed.

(** ** Submission *)

Lemma submit_runs_list w sz :
  phys_map w NEMA_CL_MEM_START sizeof_nema_cmdlist_t = sizeof_nema_cmdlist_t ->
  on_nema_io_write NEMA_REG_OP NEMA_REG_OP_SUBMIT_COMMAND_LIST sz w =
    process_cl (cl_mem w) w.
Proof.
  intro Hmap. unfold on_nema_io_write. simpl.
  unfold bind at 1, cpu_physical_memory_map. rewrite Hmap. reflexivity.
Qed.

Lemma process_cl_done cl w :
  fst (process_cl_loop cl 0 ctx_zero w) = Done tt ->
  process_cl cl w =
    (Done tt,
     log_calls [IrqRaise]
       (snd (qemu_irq_set true (snd (process_cl_loop cl 0 ctx_zero w))))).
Proof.
  intro H. unfold process_cl, bind at 1.
  destruct (process_cl_loop cl 0 ctx_zero w) as [[[] | | u] w1];
    simpl in H; try discriminate.
  reflexivity.
Qed.

Lemma process_cl_stops cl w :
  fst (process_cl_loop cl 0 ctx_zero w) <> Done tt ->
  process_cl cl w = process_cl_loop cl 0 ctx_zero w.
Proof.
  intro H. unfold process_cl, bind at 1.
  destruct (process_cl_loop cl 0 ctx_zero w) as [[[] | | u] w1];
    simpl in H; try reflexivity.
  now contradiction H.
Qed.

(** ** The loop and the sequence of handlers *)

Lemma run_records_cons i cmd rest ctx w :
  run_records i (cmd :: rest) ctx w =
    match process_cmd cmd ctx (snd (emit (Dispatch i cmd ctx) w)) with
    | (Done ctx', w') => run_records (i + 1) rest ctx' w'
    | (Exited, w') => (Exited, w')
    | (Undefined u, w') => (Undefined u, w')
    end.
Proof. reflexivity. Qed.

Lemma indexed_from_app l1 : forall i l2,
  indexed_from i (l1 ++ l2) =
    indexed_from i l1 ++ indexed_from (i + Z.of_nat (length l1)) l2.
Proof.
  induction l1 as [ | c l1 IH]; intros i l2.
  - simpl. now rewrite Z.add_0_r.
  - cbn [app indexed_from length]. rewrite IH. do 3 f_equal. lia.
Qed.

(** What a run of handlers adds to the log: no interrupt, and, when they
    all return, their invocations in order. *)
Lemma run_records_log cmds : forall i ctx w,
  exists body,
    calls (snd (run_records i cmds ctx w)) = calls w ++ body /\
    irq_raises body = 0%nat /\
    (forall c, fst (run_records i cmds ctx w) = Done c ->
               map fst (dispatches body) = indexed_from i cmds).
Proof.
  induction cmds as [ | cmd rest IH]; intros i ctx w.
  - exists []. rewrite app_nil_r. repeat split.
  - rewrite run_records_cons.
    destruct (process_cmd cmd ctx (snd (emit (Dispatch i cmd ctx) w)))
      as [[ctx' | | u] w'] eqn:Heq;
      destruct (dispatch_step _ _ _ _ _ _ Heq) as [new [E F]];
      destruct (handler_events_silent _ F) as [Fd Fi].
    + destruct (IH (i + 1) ctx' w') as [body [Eb [Ib Db]]].
      exists (Dispatch i cmd ctx :: new ++ body).
      split; [ | split ].
      * rewrite Eb, E, <- app_assoc. reflexivity.
      * change (Dispatch i cmd ctx :: new ++ body)
          with ([Dispatch i cmd ctx] ++ new ++ body).
        rewrite !irq_raises_app, Fi, Ib. reflexivity.
      * intros c Hc. cbn [dispatches]. rewrite dispatches_app, Fd.
        cbn [app map fst indexed_from]. now rewrite (Db c Hc).
    + exists (Dispatch i cmd ctx :: new). split; [ exact E | split ].
      * change (Dispatch i cmd ctx :: new) with ([Dispatch i cmd ctx] ++ new).
        now rewrite irq_raises_app, Fi.
      * intros c Hc. discriminate Hc.
    + exists (Dispatch i cmd ctx :: new). split; [ exact E | split ].
      * change (Dispatch i cmd ctx :: new) with ([Dispatch i cmd ctx] ++ new).
        now rewrite irq_raises_app, Fi.
      * intros c Hc. discriminate Hc.
Qed.

(** A run that does not return stopped in one handler: the handlers before
    it returned, and the outcome and the world of the run are those of that
    handler. *)
Lemma run_records_fault cmds : forall i ctx w,
  (forall c, fst (run_records i cmds ctx w) <> Done c) ->
  exists pre cmd post ctx_k w_k,
    cmds = pre ++ cmd :: post /\
    run_records i pre ctx w = (Done ctx_k, w_k) /\
    (forall c,
       fst (process_cmd cmd ctx_k
              (snd (emit (Dispatch (i + Z.of_nat (length pre)) cmd ctx_k)
                      w_k))) <> Done c) /\
    run_records i cmds ctx w =
      process_cmd cmd ctx_k
        (snd (emit (Dispatch (i + Z.of_nat (length pre)) cmd ctx_k) w_k)).
Proof.
  induction cmds as [ | cmd rest IH]; intros i ctx w H.
  - exfalso. now apply (H ctx).
  - rewrite run_records_cons in H. rewrite run_records_cons.
    destruct (process_cmd cmd ctx (snd (emit (Dispatch i cmd ctx) w)))
      as [[ctx' | | u] w'] eqn:Heq.
    + destruct (IH (i + 1) ctx' w' H)
        as [pre [c [post [ctx_k [w_k [El [Ep [Hf Er]]]]]]]].
      exists (cmd :: pre), c, post, ctx_k, w_k.
      replace (i + Z.of_nat (length (cmd :: pre)))
        with (i + 1 + Z.of_nat (length pre))
        by (cbn [length]; lia).
      split; [ now rewrite El | split; [ | split; assumption ] ].
      rewrite run_records_cons, Heq. exact Ep.
    + exists [], cmd, rest, ctx, w.
      cbn [length Z.of_nat]. rewrite Z.add_0_r, Heq.
      repeat split. intros c Hc. discriminate Hc.
    + exists [], cmd, rest, ctx, w.
      cbn [length Z.of_nat]. rewrite Z.add_0_r, Heq.
      repeat split. intros c Hc. discriminate Hc.
Qed.

(** The loop of [process_cl], with its byte counter and its array, is the
    run of the handlers of the records from [i] up to the count. *)
Lemma loop_runs_records cl i ctx w :
  cmdlist_wf cl -> 0 <= next_cmd_slot cl <= NEMA_MAX_CMD_COUNT ->
  0 <= i <= next_cmd_slot cl ->
  process_cl_loop cl i ctx w =
    (run_records i
       (firstn (Z.to_nat (next_cmd_slot cl - i))
          (skipn (Z.to_nat i) (cl_list cl))) ctx ;;; ret tt) w.
Proof.
  funelim (process_cl_loop cl i ctx w); intros Hwf Hn Hi;
    try rewrite <- Heqcall;
    assert (Hu : uint8 (next_cmd_slot cl) = next_cmd_slot cl)
      by (unfold uint8, NEMA_MAX_CMD_COUNT in *; apply Z.mod_small; lia);
    try (match goal with
         | Hlt : _ < uint8 _ |- _ => pose proof Hlt as Hl; rewrite Hu in Hl
         end).
  - (* the loop is over *)
    replace (next_cmd_slot cl - i) with 0 by lia. reflexivity.
  - (* an entry below the count is an entry of the array *)
    exfalso. apply list_at_none in Heq; [ | lia ]. unfold cmdlist_wf in Hwf.
    unfold NEMA_MAX_CMD_COUNT in *. lia.
  - rewrite (records_from _ _ _ (next_cmd_slot cl) Heq0) by lia.
    unfold bind at 1. rewrite run_records_cons, Heq.
    assert (Hs : uint8 (i + 1) = i + 1)
      by (unfold uint8, NEMA_MAX_CMD_COUNT in *; apply Z.mod_small; lia).
    rewrite H by (auto; rewrite Hs; lia). rewrite Hs.
    replace (next_cmd_slot cl - (i + 1)) with (next_cmd_slot cl - i - 1)
      by lia.
    replace (Z.to_nat (i + 1)) with (S (Z.to_nat i)) by lia.
    reflexivity.
  - rewrite (records_from _ _ _ (next_cmd_slot cl) Heq0) by lia.
    unfold bind at 1. rewrite run_records_cons, Heq. reflexivity.
  - rewrite (records_from _ _ _ (next_cmd_slot cl) Heq0) by lia.
    unfold bind at 1. rewrite run_records_cons, Heq. reflexivity.
Qed.

(** A submission of a list of at most 250 records is the run of the handlers
    of its records from the zeroed context, then the interrupt. *)
Lemma submit_runs_records w sz :
  cmdlist_wf (cl_mem w) ->
  0 <= next_cmd_slot (cl_mem w) <= NEMA_MAX_CMD_COUNT ->
  phys_map w NEMA_CL_MEM_START sizeof_nema_cmdlist_t = sizeof_nema_cmdlist_t ->
  on_nema_io_write NEMA_REG_OP NEMA_REG_OP_SUBMIT_COMMAND_LIST sz w =
    (run_records 0
       (firstn (Z.to_nat (next_cmd_slot (cl_mem w))) (cl_list (cl_mem w)))
       ctx_zero ;;; qemu_irq_raise) w.
Proof.
  intros Hwf Hn Hmap. rewrite (submit_runs_list _ _ Hmap).
  unfold process_cl, bind at 1.
  rewrite (loop_runs_records _ 0 ctx_zero w Hwf Hn ltac:(lia)).
  rewrite Z.sub_0_r. cbn [Z.to_nat skipn]. unfold bind.
  destruct (run_records 0
              (firstn (Z.to_nat (next_cmd_slot (cl_mem w)))
                 (cl_list (cl_mem w))) ctx_zero w) as [[c | | u] w'];
    reflexivity.
Qed.

(** C1: a write of 2 to register 0 with a list of N records, N at most 250,
    never indexes outside the array, and it is the run of the handlers of
    the records 0, 1, ..., N-1, one after the other in index order, each on
    the context and in the world the one before left, beginning on the
    zeroed context, followed by the raising of the interrupt.  So when the
    N handlers all return ("N valid records"), the write returns, the N
    records were dispatched in index order, none skipped and none twice,
    and the completion interrupt was raised exactly once, as the last
    call, after the last handler, with the line left high.  And the write
    does not return only when a handler did not: then the handlers before
    it had returned, the outcome and the world of the write are those of
    that handler, nothing was dispatched past it and no interrupt was
    raised.  With N = 0 the write returns, no handler runs and the
    interrupt is the only call. *)
Theorem submit_list_dispatches_in_order w sz :
  cmdlist_wf (cl_mem w) ->
  0 <= next_cmd_slot (cl_mem w) <= NEMA_MAX_CMD_COUNT ->
  phys_map w NEMA_CL_MEM_START sizeof_nema_cmdlist_t = sizeof_nema_cmdlist_t ->
  let cl := cl_mem w in
  let n := Z.to_nat (next_cmd_slot cl) in
  let records := firstn n (cl_list cl) in
  let r := on_nema_io_write NEMA_REG_OP NEMA_REG_OP_SUBMIT_COMMAND_LIST sz w in
  (forall j, fst r <> Undefined (ArrayIndex j)) /\
  r = (run_records 0 records ctx_zero ;;; qemu_irq_raise) w /\
  (forall ctx' w',
     run_records 0 records ctx_zero w = (Done ctx', w') ->
     fst r = Done tt /\
     calls (snd r) = calls w' ++ [IrqRaise] /\
     inst_processed (dev (snd r)) = true /\
     exists body,
       calls w' = calls w ++ body /\
       map fst (dispatches body) = indexed_from 0 records /\
       irq_raises body = 0%nat) /\
  (fst r <> Done tt ->
   exists pre cmd post ctx_k w_k,
     records = pre ++ cmd :: post /\
     run_records 0 pre ctx_zero w = (Done ctx_k, w_k) /\
     let entered :=
       snd (emit (Dispatch (Z.of_nat (length pre)) cmd ctx_k) w_k) in
     (forall c, fst (process_cmd cmd ctx_k entered) <> Done c) /\
     r = (process_cmd cmd ctx_k ;;; ret tt) entered /\
     exists body,
       calls (snd r) = calls w ++ body /\
       map fst (dispatches body) = indexed_from 0 (pre ++ [cmd]) /\
       irq_raises body = 0%nat) /\
  (exists body k,
     (k <= n)%nat /\
     map fst (dispatches body) = indexed_from 0 (firstn k (cl_list cl)) /\
     irq_raises body = 0%nat /\
     ((fst r = Done tt /\ k = n /\
       calls (snd r) = calls w ++ body ++ [IrqRaise] /\
       inst_processed (dev (snd r)) = true) \/
      (fst r <> Done tt /\ calls (snd r) = calls w ++ body))) /\
  (next_cmd_slot cl = 0 ->
   fst r = Done tt /\ calls (snd r) = calls w ++ [IrqRaise]).
Proof.
  intros Hwf Hn Hmap cl n records r.
  assert (Er : r = (run_records 0 records ctx_zero ;;; qemu_irq_raise) w)
    by apply (submit_runs_records w sz Hwf Hn Hmap).
  split; [ | split; [ exact Er | split; [ | split ] ] ].
  - (* no index outside the array *)
    subst r. rewrite (submit_runs_list _ _ Hmap). fold cl. intro j.
    destruct (outcome_eq_done (fst (process_cl_loop cl 0 ctx_zero w)))
      as [Hd | Hd].
    + rewrite (process_cl_done _ _ Hd). discriminate.
    + rewrite (process_cl_stops _ _ Hd).
      now apply (process_cl_loop_in_bounds cl 0 ctx_zero w j Hwf Hn).
  - (* every handler returns *)
    intros ctx' w' Hrun. rewrite Er. unfold bind. rewrite Hrun.
    destruct (run_records_log records 0 ctx_zero w) as [body [Eb [Ib Db]]].
    rewrite Hrun in Eb, Db. cbn [fst snd] in Eb, Db.
    repeat split. exists body. repeat split; auto. now apply (Db ctx').
  - (* a handler does not *)
    intro Hnd.
    assert (Hf : forall c, fst (run_records 0 records ctx_zero w) <> Done c).
    { intros c Hc. apply Hnd. rewrite Er. unfold bind.
      destruct (run_records 0 records ctx_zero w) as [[c' | | u] w'];
        try discriminate Hc. reflexivity. }
    destruct (run_records_fault records 0 ctx_zero w Hf)
      as [pre [cmd [post [ctx_k [w_k [El [Ep [Hk Ek]]]]]]]].
    cbn [Z.add] in Hk, Ek.
    exists pre, cmd, post, ctx_k, w_k.
    split; [ exact El | split; [ exact Ep | ] ].
    cbv zeta. split; [ exact Hk | ].
    assert (Efault : r = (process_cmd cmd ctx_k ;;; ret tt)
                           (snd (emit (Dispatch (Z.of_nat (length pre))
                                         cmd ctx_k) w_k))).
    { rewrite Er. unfold bind. rewrite Ek.
      destruct (process_cmd cmd ctx_k
                  (snd (emit (Dispatch (Z.of_nat (length pre)) cmd ctx_k)
                          w_k))) as [[c | | u] w'] eqn:Heq;
        [ exfalso; apply (Hk c); first [ now rewrite Heq | reflexivity ]
        | reflexivity | reflexivity ]. }
    split; [ exact Efault | ].
    destruct (run_records_log pre 0 ctx_zero w) as [body [Eb [Ib Db]]].
    rewrite Ep in Eb, Db. cbn [fst snd] in Eb, Db.
    specialize (Db ctx_k eq_refl).
    destruct (process_cmd cmd ctx_k
                (snd (emit (Dispatch (Z.of_nat (length pre)) cmd ctx_k)
                        w_k))) as [o w'] eqn:Heq.
    destruct (dispatch_step _ _ _ _ _ _ Heq) as [new [E F]].
    destruct (handler_events_silent _ F) as [Fd Fi].
    exists (body ++ Dispatch (Z.of_nat (length pre)) cmd ctx_k :: new).
    assert (Es : snd r = w').
    { rewrite Efault. unfold bind. rewrite Heq.
      destruct o as [c | | u]; [ | reflexivity | reflexivity ].
      exfalso. now apply (Hk c). }
    rewrite Es. split; [ | split ].
    + rewrite E, Eb, <- app_assoc. reflexivity.
    + rewrite dispatches_app. cbn [dispatches]. rewrite Fd, map_app, Db.
      rewrite indexed_from_app. reflexivity.
    + change (Dispatch (Z.of_nat (length pre)) cmd ctx_k :: new)
        with ([Dispatch (Z.of_nat (length pre)) cmd ctx_k] ++ new).
      rewrite !irq_raises_app, Ib, Fi. reflexivity.
  - (* the log, and the empty list *)
    subst r. rewrite (submit_runs_list _ _ Hmap). fold cl.
    assert (Hu : uint8 (next_cmd_slot cl) = next_cmd_slot cl).
    { unfold uint8, NEMA_MAX_CMD_COUNT in *. apply Z.mod_small.
      subst cl. lia. }
    destruct (process_cl_loop_log cl 0 ctx_zero w ltac:(lia))
      as [body [k [Eb [Ib [_ [Hk [Fb Kb]]]]]]].
    rewrite Hu, Z.sub_0_r in Hk, Kb. fold n in Hk, Kb.
    destruct (outcome_eq_done (fst (process_cl_loop cl 0 ctx_zero w)))
      as [Hd | Hd].
    + rewrite (process_cl_done _ _ Hd). simpl. split.
      * exists body, k. repeat split; auto. left.
        rewrite Eb, <- app_assoc. auto.
      * intro H0. split; [ reflexivity | ].
        assert (Hl : process_cl_loop cl 0 ctx_zero w = (Done tt, w)).
        { simp process_cl_loop.
          destruct (Z_lt_dec 0 (uint8 (next_cmd_slot cl))) as [l | l];
            [ lia | reflexivity ]. }
        rewrite Hl. reflexivity.
    + rewrite (process_cl_stops _ _ Hd). split.
      * exists body, k. repeat split; auto.
      * intro H0. exfalso. apply Hd.
        simp process_cl_loop.
        destruct (Z_lt_dec 0 (uint8 (next_cmd_slot cl))) as [l | l];
          [ lia | reflexivity ].
Qed.

(** The red-square scenario: bind an 8x8 destination, set the clip, set the
    blend mode, fill.  The four handlers return, so the write returns: the
    four records were dispatched in order and the interrupt closes the
    log. *)
Lemma submit_list_dispatches_in_order_witness :
  let w := sample_world dev_reset scenario_list in
  let r := on_nema_io_write NEMA_REG_OP NEMA_REG_OP_SUBMIT_COMMAND_LIST 4 w in
  let records :=
    [bind_dest_8x8; set_clip_8x8; set_blend_fill_simple; fill_red_8x8] in
  r = (run_records 0 records ctx_zero ;;; qemu_irq_raise) w /\
  fst r = Done tt /\
  inst_processed (dev (snd r)) = true /\
  exists w' body,
    calls (snd r) = calls w' ++ [IrqRaise] /\
    calls w' = body /\
    map fst (dispatches body) = indexed_from 0 records /\
    irq_raises body = 0%nat.
Proof.
  intros w r records.
  destruct (submit_list_dispatches_in_order w 4) as [_ [Er [Hd _]]].
  - vm_compute; reflexivity.
  - vm_compute; split; discriminate.
  - vm_compute; reflexivity.
  - split; [ exact Er | ].
    assert (Hrun : run_records 0 records ctx_zero w =
                   (Done ctx_zero, snd (run_records 0 records ctx_zero w)))
      by (vm_compute; reflexivity).
    destruct (Hd _ _ Hrun) as [H1 [H2 [H3 [body [H4 [H5 H6]]]]]].
    split; [ exact H1 | split; [ exact H3 | ] ].
    exists (snd (run_records 0 records ctx_zero w)), body.
    repeat split; assumption.
Defined.

Lemma submit_cases w sz :
  on_nema_io_write NEMA_REG_OP NEMA_REG_OP_SUBMIT_COMMAND_LIST sz w =
    (Exited, w) \/
  on_nema_io_write NEMA_REG_OP NEMA_REG_OP_SUBMIT_COMMAND_LIST sz w =
    process_cl (cl_mem w) w.
Proof.
  destruct (Z.eq_dec (phys_map w NEMA_CL_MEM_START sizeof_nema_cmdlist_t)
              sizeof_nema_cmdlist_t) as [E | E].
  - right. now apply submit_runs_list.
  - left. unfold on_nema_io_write. simpl.
    unfold bind at 1, cpu_physical_memory_map. simpl.
    apply Z.eqb_neq in E. rewrite E. reflexivity.
Qed.

(** C4: the clip rectangle and its flag are device state, the pipeline
    context is not.  After a submission that completed, let the guest
    rewrite its memory and the list block and submit again.  Whatever the
    second list holds, SET_CLIP records or not, the handler of its record 0
    is entered on the zeroed context, and for a list of at most 250 records
    the whole submission is the run of its handlers from the zeroed context
    in the world the guest left: nothing of the context of the first list
    enters it.  And when the second list holds no SET_CLIP, the clip state
    it leaves, whatever else it does, is the one the first submission
    left. *)
Theorem clip_persists_context_does_not w1 sz1 w2 sz2 :
  let submit := on_nema_io_write NEMA_REG_OP NEMA_REG_OP_SUBMIT_COMMAND_LIST in
  let w1' := snd (submit sz1 w1) in
  let r := submit sz2 w2 in
  let cl2 := cl_mem w2 in
  fst (submit sz1 w1) = Done tt ->
  dev w2 = dev w1' -> calls w2 = calls w1' ->
  (exists body,
     calls (snd r) = calls w1' ++ body /\
     forall c x, In (0, c, x) (dispatches body) -> x = ctx_zero) /\
  (cmdlist_wf cl2 -> 0 <= next_cmd_slot cl2 <= NEMA_MAX_CMD_COUNT ->
   phys_map w2 NEMA_CL_MEM_START sizeof_nema_cmdlist_t
     = sizeof_nema_cmdlist_t ->
   r = (run_records 0
          (firstn (Z.to_nat (next_cmd_slot cl2)) (cl_list cl2)) ctx_zero ;;;
        qemu_irq_raise) w2) /\
  ((forall k c, 0 <= k < uint8 (next_cmd_slot cl2) ->
                list_at cl2 k = Some c -> op c <> NEMA_OP_SET_CLIP) ->
   clip_state (dev (snd r)) = clip_state (dev w1')).
Proof.
  intros submit w1' r cl2 _ Hdev Hcalls. subst r submit.
  rewrite <- Hdev, <- Hcalls. clear Hdev Hcalls.
  split; [ | split ].
  - (* the context *)
    destruct (submit_cases w2 sz2) as [E | E]; rewrite E; fold cl2.
    + exists []. split; [ now rewrite app_nil_r | intros c x [] ].
    + destruct (process_cl_loop_log cl2 0 ctx_zero w2 ltac:(lia))
        as [body [k [Eb [_ [Db _]]]]].
      destruct (outcome_eq_done (fst (process_cl_loop cl2 0 ctx_zero w2)))
        as [Hl | Hl].
      * rewrite (process_cl_done _ _ Hl). simpl.
        exists (body ++ [IrqRaise]). rewrite Eb, <- app_assoc.
        split; [ reflexivity | ].
        intros c x Hin. rewrite dispatches_app, app_nil_r in Hin.
        now apply (Db 0 c x Hin).
      * rewrite (process_cl_stops _ _ Hl).
        exists body. split; [ exact Eb | ].
        intros c x Hin. now apply (Db 0 c x Hin).
  - (* the whole submission *)
    intros Hwf Hn Hmap. apply (submit_runs_records w2 sz2 Hwf Hn Hmap).
  - (* the clip *)
    intro Hclip.
    destruct (submit_cases w2 sz2) as [E | E]; rewrite E; fold cl2;
      [ reflexivity | ].
    pose proof (process_cl_loop_same_dev cl2 0 ctx_zero w2 ltac:(lia) Hclip)
      as Hd.
    destruct (outcome_eq_done (fst (process_cl_loop cl2 0 ctx_zero w2)))
      as [Hl | Hl].
    + rewrite (process_cl_done _ _ Hl). simpl.
      unfold clip_state. simpl. rewrite Hd. reflexivity.
    + rewrite (process_cl_stops _ _ Hl). now rewrite Hd.
Qed.

Lemma store_list_dev cl w : dev (store_list cl w) = dev w.
Proof. reflexivity. Qed.

Lemma store_list_calls cl w : calls (store_list cl w) = calls w.
Proof. reflexivity. Qed.

(** The scenario list sets the clip and the blend mode; the second list
    binds and fills under the clip that is still there.  Submitted a second
    time, the scenario list, which sets a clip, starts on the zeroed context
    as well. *)
Lemma clip_persists_context_does_not_witness :
  let submit := on_nema_io_write NEMA_REG_OP NEMA_REG_OP_SUBMIT_COMMAND_LIST in
  let w1' := snd (submit 4 (sample_world dev_reset scenario_list)) in
  let r := submit 4 (store_list second_list w1') in
  let r' := submit 4 (store_list scenario_list w1') in
  (fst r = Done tt /\ has_clip_set (dev w1') = true) /\
  clip_state (dev (snd r)) = clip_state (dev w1') /\
  (exists body,
     calls (snd r) = calls w1' ++ body /\
     forall c x, In (0, c, x) (dispatches body) -> x = ctx_zero) /\
  (exists body,
     calls (snd r') = calls w1' ++ body /\
     forall c x, In (0, c, x) (dispatches body) -> x = ctx_zero).
Proof.
  split; [ vm_compute; split; reflexivity | ].
  pose proof (clip_persists_context_does_not
                (sample_world dev_reset scenario_list) 4
                (store_list second_list
                   (snd (on_nema_io_write NEMA_REG_OP
                           NEMA_REG_OP_SUBMIT_COMMAND_LIST 4
                           (sample_world dev_reset scenario_list)))) 4) as H.
  pose proof (clip_persists_context_does_not
                (sample_world dev_reset scenario_list) 4
                (store_list scenario_list
                   (snd (on_nema_io_write NEMA_REG_OP
                           NEMA_REG_OP_SUBMIT_COMMAND_LIST 4
                           (sample_world dev_reset scenario_list)))) 4) as H'.
  cbv zeta in H, H'.
  specialize (H ltac:(vm_compute; reflexivity) (store_list_dev _ _)
                (store_list_calls _ _)).
  specialize (H' ltac:(vm_compute; reflexivity) (store_list_dev _ _)
                (store_list_calls _ _)).
  destruct H as [Hctx [_ Hclip]]. destruct H' as [Hctx' _].
  split; [ | split; [ exact Hctx | exact Hctx' ] ].
  apply Hclip.
  intros k c Hk. cbn [cl_mem store_list] in *.
  change (uint8 (next_cmd_slot second_list)) with 2 in Hk.
  assert (Hk' : k = 0 \/ k = 1) by lia.
  destruct Hk' as [-> | ->]; vm_compute; intro H; inversion H; discriminate.
Defined.

(** C5, the code at a count of 251: no check rejects the list; the 250
    records of the array are dispatched and the loop then evaluates
    [cl->list[250]], outside the array. *)
Theorem oversized_list_reads_past_array :
  let w := sample_world dev_reset oversized_list in
  let r := on_nema_io_write NEMA_REG_OP NEMA_REG_OP_SUBMIT_COMMAND_LIST 4 w in
  cmdlist_wf (cl_mem w) /\
  fst r = Undefined (ArrayIndex 250) /\
  length (dispatches (calls (snd r))) = 250%nat.
Proof. vm_compute. repeat split. Qed.

(** C10: a read of the register region returns 0, whatever the offset
    and the size, and leaves the world as it is. *)
Theorem register_read_is_zero addr size w :
  on_nema_io_read addr size w = (Done 0, w).
Proof. reflexivity. Qed.

(** ** Handlers *)

Lemma bind_done {A B} (m : M A) (k : A -> M B) w b w' :
  bind m k w = (Done b, w') ->
  exists a w1, m w = (Done a, w1) /\ k a w1 = (Done b, w').
Proof.
  unfold bind. destruct (m w) as [[a | | u] w1]; intro H;
    try discriminate. now exists a, w1.
Qed.

Lemma clean_up_ctx_spec ctx w :
  clean_up_ctx ctx w = (Done ctx_zero, log_calls (unmap_calls ctx) w).
Proof.
  unfold clean_up_ctx, unmap_pixman_imgs, unmap_pixman_img, unmap_calls.
  destruct ctx as [d s m ds ss cc ccs bm bo]; simpl.
  destruct d, m, s; unfold bind, emit, ret; simpl;
    rewrite ?log_calls_nil; reflexivity.
Qed.

Lemma validate_ctx_spec ctx w :
  validate_ctx ctx w =
    (if ctx_ready (dev w) ctx then Done tt else Exited, w).
Proof.
  unfold validate_ctx, ctx_ready, has_flag, bind, get_dev, exit_failure, ret.
  destruct (has_clip_set (dev w)), (dest_tex ctx), (dest_surface ctx),
    (mask_tex ctx), (const_color_set ctx),
    (Z.land (blending_mode ctx) NEMA_BL_MASK =? 0),
    (Z.land (blending_mode ctx) NEMA_BL_OPA =? 0); reflexivity.
Qed.

Lemma is_draw_op_cases o :
  is_draw_op o = true ->
  o = NEMA_OP_DRAW_LINE \/ o = NEMA_OP_BLIT \/ o = NEMA_OP_FILL_RECT \/
  o = NEMA_OP_DRAW_RECT \/ o = NEMA_OP_FILL_RECT_ROUNDED \/
  o = NEMA_OP_DRAW_RECT_ROUNDED.
Proof.
  unfold is_draw_op. rewrite !orb_true_iff, !Z.eqb_eq. tauto.
Qed.

Lemma new_calls_logged l w :
  skipn (length (calls w)) (calls (log_calls l w)) = l.
Proof.
  simpl. rewrite skipn_app, skipn_all, Nat.sub_diag. reflexivity.
Qed.

Lemma paint_not_unmap c ctx : ~ In (CairoPaint c) (unmap_calls ctx).
Proof.
  unfold unmap_calls. destruct (dest_tex ctx); simpl; intuition discriminate.
Qed.

(** The arms of the [switch] of [process_cmd]. *)
Lemma process_cmd_draw_line cmd ctx :
  op cmd = NEMA_OP_DRAW_LINE ->
  process_cmd cmd ctx = (execute_draw_line cmd ctx ;;; clean_up_ctx ctx).
Proof. intro H. unfold process_cmd. rewrite H. reflexivity. Qed.

Lemma process_cmd_blit cmd ctx :
  op cmd = NEMA_OP_BLIT ->
  process_cmd cmd ctx = (c <- execute_blit ctx ;; clean_up_ctx c).
Proof. intro H. unfold process_cmd. rewrite H. reflexivity. Qed.

Lemma process_cmd_fill_rect cmd ctx :
  op cmd = NEMA_OP_FILL_RECT ->
  process_cmd cmd ctx = (c <- execute_fill_rect cmd ctx ;; clean_up_ctx c).
Proof. intro H. unfold process_cmd. rewrite H. reflexivity. Qed.

Lemma process_cmd_draw_rect cmd ctx :
  op cmd = NEMA_OP_DRAW_RECT ->
  process_cmd cmd ctx = (execute_draw_rect cmd ctx ;;; clean_up_ctx ctx).
Proof. intro H. unfold process_cmd. rewrite H. reflexivity. Qed.

Lemma process_cmd_fill_rect_rounded cmd ctx :
  op cmd = NEMA_OP_FILL_RECT_ROUNDED ->
  process_cmd cmd ctx =
    (execute_fill_rect_rounded cmd ctx ;;; clean_up_ctx ctx).
Proof. intro H. unfold process_cmd. rewrite H. reflexivity. Qed.

Lemma process_cmd_draw_rect_rounded cmd ctx :
  op cmd = NEMA_OP_DRAW_RECT_ROUNDED ->
  process_cmd cmd ctx =
    (execute_draw_rect_rounded cmd ctx ;;; clean_up_ctx ctx).
Proof. intro H. unfold process_cmd. rewrite H. reflexivity. Qed.

Lemma draw_rect_spec cmd ctx w :
  op cmd = NEMA_OP_DRAW_RECT ->
  process_cmd cmd ctx w =
    (Done ctx_zero,
     log_calls
       (CairoPaint
          {| cr_surface := dest_surface ctx; cr_clip := None;
             cr_path := PathRectangle (int_a cmd) (int_b cmd) (u_int_a cmd)
                          (u_int_b cmd);
             cr_color := u_int_c cmd; cr_opacity := None;
             cr_paint := Stroke |} :: unmap_calls ctx) w).
Proof.
  intro Hop. rewrite (process_cmd_draw_rect _ _ Hop).
  unfold execute_draw_rect, cairo_draw, bind, emit.
  rewrite clean_up_ctx_spec, log_calls_app. reflexivity.
Qed.

Lemma rounded_rect_spec cmd ctx w :
  op cmd = NEMA_OP_FILL_RECT_ROUNDED \/ op cmd = NEMA_OP_DRAW_RECT_ROUNDED ->
  process_cmd cmd ctx w =
    (Done ctx_zero,
     log_calls
       (CairoPaint
          {| cr_surface := dest_surface ctx;
             cr_clip := Some (nema_clip_region (dev w));
             cr_path := PathRoundedRect (int_a cmd) (int_b cmd) (u_int_a cmd)
                          (u_int_b cmd) (int_c cmd);
             cr_color := u_int_c cmd; cr_opacity := None;
             cr_paint := if op cmd =? NEMA_OP_FILL_RECT_ROUNDED
                         then Fill else Stroke |} :: unmap_calls ctx) w).
Proof.
  intros [Hop | Hop];
    [ rewrite (process_cmd_fill_rect_rounded _ _ Hop)
    | rewrite (process_cmd_draw_rect_rounded _ _ Hop) ];
    rewrite Hop;
    unfold execute_fill_rect_rounded, execute_draw_rect_rounded, cairo_draw,
      bind, emit, get_dev;
    rewrite clean_up_ctx_spec, log_calls_app; reflexivity.
Qed.

Lemma draw_line_spec cmd ctx w :
  op cmd = NEMA_OP_DRAW_LINE ->
  process_cmd cmd ctx w =
    if is_null (mask_tex ctx) then
      (Done ctx_zero,
       log_calls
         (CairoPaint
            {| cr_surface := dest_surface ctx;
               cr_clip := Some (nema_clip_region (dev w));
               cr_path := PathLine (int_a cmd) (int_b cmd) (int_c cmd)
                            (int_d cmd) (u_int_a cmd);
               cr_color := u_int_b cmd;
               cr_opacity :=
                 if Z.land (blending_mode ctx) NEMA_BL_OPA =? 0 then None
                 else Some (Z.land (Z.shiftr (const_color ctx) 24) 255);
               cr_paint := Stroke |} :: unmap_calls ctx) w)
    else (Exited, w).
Proof.
  intro Hop. rewrite (process_cmd_draw_line _ _ Hop).
  unfold execute_draw_line, cairo_prepare_source, cairo_draw.
  destruct (is_null (mask_tex ctx)); [ | reflexivity ].
  destruct (Z.land (blending_mode ctx) NEMA_BL_OPA =? 0) eqn:E;
    unfold bind, emit, get_dev, ret, negb;
    rewrite clean_up_ctx_spec, log_calls_app; reflexivity.
Qed.

(** C9: DRAW_RECT is not validated and not clipped.  Whatever the context
    and the device state, clip set or not, the handler returns; the one
    paint it issues, a stroke on the destination surface of the context,
    carries no clip; what is logged does not depend on the clip state.  The
    rounded rectangles and the line, when they paint, do so under the clip
    region of the device. *)
Theorem draw_rect_unclipped_unvalidated cmd ctx w :
  op cmd = NEMA_OP_DRAW_RECT ->
  process_cmd cmd ctx w =
    (Done ctx_zero,
     log_calls
       (CairoPaint
          {| cr_surface := dest_surface ctx; cr_clip := None;
             cr_path := PathRectangle (int_a cmd) (int_b cmd) (u_int_a cmd)
                          (u_int_b cmd);
             cr_color := u_int_c cmd; cr_opacity := None;
             cr_paint := Stroke |} :: unmap_calls ctx) w) /\
  (forall cmd' c,
     op cmd' = NEMA_OP_DRAW_LINE \/ op cmd' = NEMA_OP_FILL_RECT_ROUNDED \/
     op cmd' = NEMA_OP_DRAW_RECT_ROUNDED ->
     In (CairoPaint c)
        (skipn (length (calls w)) (calls (snd (process_cmd cmd' ctx w)))) ->
     cr_clip c = Some (nema_clip_region (dev w))).
Proof.
  intro Hop. split; [ now apply draw_rect_spec | ].
  intros cmd' c Hop' Hin.
  destruct Hop' as [E | E].
  - rewrite (draw_line_spec _ _ _ E) in Hin.
    destruct (is_null (mask_tex ctx)); cbn [snd] in Hin.
    + rewrite new_calls_logged in Hin. destruct Hin as [Hin | Hin].
      * apply (f_equal paint_clip) in Hin. symmetry. exact Hin.
      * apply paint_not_unmap in Hin. destruct Hin.
    + rewrite skipn_all in Hin. destruct Hin.
  - rewrite (rounded_rect_spec _ _ _ E) in Hin. cbn [snd] in Hin.
    rewrite new_calls_logged in Hin. destruct Hin as [Hin | Hin].
    + apply (f_equal paint_clip) in Hin. symmetry. exact Hin.
    + apply paint_not_unmap in Hin. destruct Hin.
Qed.

(** A stroke on a bound destination with no clip ever set. *)
Lemma draw_rect_unclipped_unvalidated_witness :
  let w := sample_world dev_reset (sample_list []) in
  has_clip_set (dev w) = false /\
  process_cmd draw_rect_8x8 ctx_dest_8x8 w =
    (Done ctx_zero,
     log_calls
       (CairoPaint
          {| cr_surface := dest_surface ctx_dest_8x8; cr_clip := None;
             cr_path := PathRectangle 0 0 8 8;
             cr_color := 4294901760; cr_opacity := None;
             cr_paint := Stroke |} :: unmap_calls ctx_dest_8x8) w).
Proof.
  split; [ reflexivity | ].
  apply (proj1 (draw_rect_unclipped_unvalidated draw_rect_8x8 ctx_dest_8x8
                  (sample_world dev_reset (sample_list [])) eq_refl)).
Defined.

(** C3 as stated fails: an 8x8 fill on a context with blend mode
    [SIMPLE | OPA] and a constant colour set succeeds, and leaves the blend
    mode, the constant colour and its flag zeroed along with the bindings. *)
Lemma fill_rect_resets_blend_state :
  let w := sample_world dev_clipped (sample_list []) in
  let r := process_cmd fill_red_8x8 ctx_dest_opa w in
  is_draw_op (op fill_red_8x8) = true /\
  fst r = Done ctx_zero /\
  blending_mode ctx_dest_opa = 5 /\ blending_mode ctx_zero = 0 /\
  const_color ctx_dest_opa = 2147483648 /\ const_color ctx_zero = 0 /\
  const_color_set ctx_dest_opa = true /\ const_color_set ctx_zero = false.
Proof. vm_compute. repeat split. Qed.

(** C3, amended: a drawing operation that succeeds leaves the whole
    pipeline context zeroed: no destination, source or mask binding, and
    also blend mode 0, constant colour 0 and the constant-colour flag
    cleared. *)
Theorem draw_resets_whole_context cmd ctx w ctx' w' :
  is_draw_op (op cmd) = true ->
  process_cmd cmd ctx w = (Done ctx', w') ->
  ctx' = ctx_zero /\
  dest_tex ctx' = None /\ src_tex ctx' = None /\ mask_tex ctx' = None /\
  blending_mode ctx' = 0 /\ const_color ctx' = 0 /\
  const_color_set ctx' = false.
Proof.
  intros Hop H.
  assert (E : ctx' = ctx_zero); [ | subst ctx'; repeat split ].
  apply is_draw_op_cases in Hop.
  destruct Hop as [E | [E | [E | [E | [E | E]]]]];
    [ rewrite (process_cmd_draw_line _ _ E) in H
    | rewrite (process_cmd_blit _ _ E) in H
    | rewrite (process_cmd_fill_rect _ _ E) in H
    | rewrite (process_cmd_draw_rect _ _ E) in H
    | rewrite (process_cmd_fill_rect_rounded _ _ E) in H
    | rewrite (process_cmd_draw_rect_rounded _ _ E) in H ];
    apply bind_done in H; destruct H as [a [w1 [_ H]]];
    rewrite clean_up_ctx_spec in H; congruence.
Qed.

Lemma draw_resets_whole_context_witness :
  let w := sample_world dev_clipped (sample_list []) in
  exists w',
    process_cmd fill_red_8x8 ctx_dest_opa w = (Done ctx_zero, w') /\
    blending_mode ctx_zero = 0 /\ const_color_set ctx_zero = false.
Proof.
  exists (snd (process_cmd fill_red_8x8 ctx_dest_opa
                 (sample_world dev_clipped (sample_list [])))).
  assert (H : process_cmd fill_red_8x8 ctx_dest_opa
                (sample_world dev_clipped (sample_list [])) =
              (Done ctx_zero,
               snd (process_cmd fill_red_8x8 ctx_dest_opa
                      (sample_world dev_clipped (sample_list [])))))
    by (vm_compute; reflexivity).
  split; [ exact H | ].
  destruct (draw_resets_whole_context fill_red_8x8 ctx_dest_opa _ _ _
              eq_refl H) as [_ [_ [_ [_ [Hb [_ Hs]]]]]].
  split; [ exact Hb | exact Hs ].
Defined.

(** C2 as stated fails: with a destination bound and no clip ever set the
    pipeline is not ready, yet DRAW_RECT returns and has painted. *)
Lemma draw_rect_runs_unready :
  let w := sample_world dev_reset (sample_list []) in
  let r := process_cmd draw_rect_8x8 ctx_dest_8x8 w in
  is_draw_op (op draw_rect_8x8) = true /\
  ctx_ready (dev w) ctx_dest_8x8 = false /\
  fst r = Done ctx_zero /\
  existsb is_pixel_write (calls (snd r)) = true.
Proof. vm_compute. repeat split. Qed.

(** C2, amended to the compositor backend: before BLIT and FILL_RECT the
    readiness of the pipeline is derived from the context and the device as
    they are at that moment, and when it fails (no destination, clip never
    set, mask presence unlike the has-mask flag, constant-colour flag unlike
    the has-opacity flag) the handler exits with nothing logged, so before
    any pixel write. *)
Theorem composite_ops_validate cmd ctx w :
  is_composite_op (op cmd) = true ->
  ctx_ready (dev w) ctx = false ->
  process_cmd cmd ctx w = (Exited, w).
Proof.
  intros Hop Hr. unfold is_composite_op in Hop.
  apply orb_true_iff in Hop. rewrite !Z.eqb_eq in Hop.
  destruct Hop as [E | E];
    [ rewrite (process_cmd_blit _ _ E); unfold execute_blit
    | rewrite (process_cmd_fill_rect _ _ E); unfold execute_fill_rect ];
    unfold bind at 1 2; rewrite validate_ctx_spec, Hr; reflexivity.
Qed.

(** A fill with the has-mask flag on and no mask bound. *)
Lemma composite_ops_validate_witness :
  let w := sample_world dev_clipped (sample_list []) in
  let ctx := set_blending BLEND_FILL NEMA_BL_MASK ctx_dest_8x8 in
  ctx_ready (dev w) ctx = false /\
  process_cmd fill_red_8x8 ctx w = (Exited, w).
Proof.
  split; [ reflexivity | ].
  apply (composite_ops_validate fill_red_8x8
           (set_blending BLEND_FILL NEMA_BL_MASK ctx_dest_8x8)
           (sample_world dev_clipped (sample_list []))); reflexivity.
Defined.

(** ** Mask acquisition *)


Lemma int32_small x : -2147483648 <= x < 2147483648 -> int32 x = x.
Proof.
  intro H. unfold int32.
  destruct (Z_lt_dec x 0).
  - replace (x mod 4294967296) with (x + 4294967296)
      by (apply (Z.mod_unique _ _ (-1)); lia).
    destruct (x + 4294967296 <? 2147483648) eqn:E;
      [ apply Z.ltb_lt in E | ]; lia.
  - rewrite Z.mod_small by lia.
    destruct (x <? 2147483648) eqn:E; [ | apply Z.ltb_ge in E ]; lia.
Qed.


Lemma length_read_from {A} (mem : Z -> A) n : forall addr,
  length (read_from mem addr n) = n.
Proof. induction n as [ | n IH ]; intro addr; simpl; [ | rewrite IH ]; auto. Qed.

Lemma length_read_bytes mem addr len :
  length (read_bytes mem addr len) = Z.to_nat len.
Proof. apply length_read_from. Qed.






Lemma round_up4_unaligned s :
  0 < s -> s mod 4 <> 0 -> round_up4 s = s + (4 - s mod 4).
Proof.
  intros Hs Hm. unfold round_up4.
  pose proof (Z.mod_pos_bound s 4 ltac:(lia)) as Hb.
  pose proof (Z.div_mod s 4 ltac:(lia)) as Hd.
  replace ((s + 3) / 4) with (s / 4 + 1); [ lia | ].
  apply (Z.div_unique _ _ _ (s mod 4 - 1)); lia.
Qed.

(** In the range of [lv_coord_t] the rounding copies every row. *)
Lemma round_mask_in_range src s h :
  Z.rem s 4 <> 0 -> 0 < s -> 0 < h ->
  s * h <= Z.of_nat (length src) ->
  round_mask_if_needed src s h =
    Done (Some (copy_rows (Z.to_nat h) src (Z.to_nat s)
                  (Z.to_nat (4 - s mod 4)))).
Proof.
  intros Hr Hs Hh Hl. unfold round_mask_if_needed.
  rewrite Z.rem_mod_nonneg in * by lia.
  pose proof (Z.mod_pos_bound s 4 ltac:(lia)) as Hb.
  replace (uint8 (Z.rem (4 - s mod 4) 4)) with (4 - s mod 4).
  2:{ rewrite Z.rem_small by lia. unfold uint8.
      now rewrite (Z.mod_small (4 - s mod 4) 256) by lia. }
  destruct (s mod 4 =? 0) eqn:E0; [ apply Z.eqb_eq in E0; lia | ].
  destruct ((s + (4 - s mod 4)) * h <? 0) eqn:E1;
    [ apply Z.ltb_lt in E1; nia | ].
  destruct (h <=? 0) eqn:E2; [ apply Z.leb_le in E2; lia | ].
  destruct (s <? 0) eqn:E3; [ apply Z.ltb_lt in E3; lia | ].
  destruct (Z.of_nat (length src) <? s * h) eqn:E4;
    [ apply Z.ltb_lt in E4; lia | ].
  reflexivity.
Qed.





(** ** Opacity blending *)



Lemma scale_byte_shift o b :
  0 <= o < 256 -> is_byte b -> scale_byte o b = Z.shiftr (b * o) 8.
Proof.
  unfold is_byte, scale_byte, uint32, uint8. intros Ho Hb.
  rewrite (Z.mod_small (b * o)) by nia.
  rewrite Z.shiftr_div_pow2 by lia. change (2 ^ 8) with 256.
  apply Z.mod_small. split.
  - apply Z.div_pos; nia.
  - apply Z.div_lt_upper_bound; nia.
Qed.







(* ------------------------------------------------------------------ *)
(** ** Further properties of nema.c *)

Lemma process_cmd_set_clip cmd ctx :
  op cmd = NEMA_OP_SET_CLIP ->
  process_cmd cmd ctx = (set_clip cmd ;;; ret ctx).
Proof. intro H. unfold process_cmd. rewrite H. reflexivity. Qed.

Lemma process_cmd_set_clip_at cmd ctx w :
  op cmd = NEMA_OP_SET_CLIP ->
  process_cmd cmd ctx w = (Done ctx, snd (set_clip cmd w)).
Proof. intro H. rewrite (process_cmd_set_clip _ _ H). reflexivity. Qed.

Lemma process_cmd_set_blend_fill cmd ctx :
  op cmd = NEMA_OP_SET_BLEND_FILL ->
  process_cmd cmd ctx = ret (set_blending BLEND_FILL (uint8 (u_int_a cmd)) ctx).
Proof. intro H. unfold process_cmd. rewrite H. reflexivity. Qed.

Lemma process_cmd_set_blend_blit cmd ctx :
  op cmd = NEMA_OP_SET_BLEND_BLIT ->
  process_cmd cmd ctx = ret (set_blending BLEND_BLIT (uint8 (u_int_a cmd)) ctx).
Proof. intro H. unfold process_cmd. rewrite H. reflexivity. Qed.

Lemma process_cmd_set_const_color cmd ctx :
  op cmd = NEMA_OP_SET_CONST_COLOR ->
  process_cmd cmd ctx = ret (set_const_color (u_int_a cmd) ctx).
Proof. intro H. unfold process_cmd. rewrite H. reflexivity. Qed.

Lemma process_cmd_bind_dest cmd ctx :
  op cmd = NEMA_OP_BIND_TEX -> u_int_8_a cmd = NEMA_TEX0 ->
  process_cmd cmd ctx =
    (r <- read_tex cmd PIXMAN_a8r8g8b8 true ;;
     let (image, data) := r in
     ret (set_dest_surface
            (Some (cairo_image_surface_create_for_data data
                     (int32 (u_int_a cmd)) (int32 (u_int_b cmd))
                     (int_a cmd)))
            (set_dest_tex (Some image) ctx))).
Proof. intros H1 H2. unfold process_cmd. rewrite H1, H2. reflexivity. Qed.

Lemma process_cmd_bind_src cmd ctx :
  op cmd = NEMA_OP_BIND_TEX -> u_int_8_a cmd = NEMA_TEX1 ->
  process_cmd cmd ctx =
    (r <- read_tex cmd PIXMAN_a8r8g8b8 false ;;
     ret (set_src_tex (Some (fst r)) ctx)).
Proof. intros H1 H2. unfold process_cmd. rewrite H1, H2. reflexivity. Qed.

Lemma is_state_op_cases o :
  is_state_op o = true ->
  o = NEMA_OP_SET_CLIP \/ o = NEMA_OP_SET_BLEND_BLIT \/
  o = NEMA_OP_SET_BLEND_FILL \/ o = NEMA_OP_SET_CONST_COLOR.
Proof.
  unfold is_state_op. rewrite !orb_true_iff, !Z.eqb_eq. tauto.
Qed.

(** X1: a register write that is not a list submission returns and calls
    no handler.  An acknowledge (3 to register 1) lowers the line, and that
    is its only call; any other write, the reserved single-command value 1
    included, does nothing at all.  The clip state stays in both cases. *)
Theorem non_submit_write_draws_nothing offset val sz w :
  ~ (offset = NEMA_REG_OP /\ val = NEMA_REG_OP_SUBMIT_COMMAND_LIST) ->
  let r := on_nema_io_write offset val sz w in
  let ack := (offset =? NEMA_REG_SIG) && (val =? NEMA_REG_OP_SIGNAL_RECEIVED) in
  fst r = Done tt /\
  clip_state (dev (snd r)) = clip_state (dev w) /\
  inst_processed (dev (snd r)) =
    (if ack then false else inst_processed (dev w)) /\
  calls (snd r) = calls w ++ (if ack then [IrqLower] else []) /\
  (ack = false -> snd r = w).
Proof.
  intros Hn r ack. subst r ack. unfold on_nema_io_write.
  destruct ((offset =? NEMA_REG_OP) && (val =? NEMA_REG_OP_SUBMIT_COMMAND_LIST))
    eqn:E.
  - apply andb_true_iff in E. rewrite !Z.eqb_eq in E. tauto.
  - destruct ((offset =? NEMA_REG_SIG) && (val =? NEMA_REG_OP_SIGNAL_RECEIVED)).
    + repeat split. discriminate.
    + cbn. rewrite app_nil_r. repeat split.
Qed.

(** The reserved single-command submit, and an acknowledge. *)
Lemma non_submit_write_draws_nothing_witness :
  on_nema_io_write NEMA_REG_OP NEMA_REG_OP_SUBMIT_COMMAND 4 idle_world =
    (Done tt, idle_world) /\
  calls (snd (on_nema_io_write NEMA_REG_SIG NEMA_REG_OP_SIGNAL_RECEIVED 4
                idle_world)) = [IrqLower].
Proof.
  split.
  - pose proof (non_submit_write_draws_nothing NEMA_REG_OP
                  NEMA_REG_OP_SUBMIT_COMMAND 4 idle_world
                  ltac:(intros [_ H]; discriminate H)) as H.
    cbv zeta in H. destruct H as [H1 [_ [_ [_ H5]]]].
    specialize (H5 eq_refl).
    destruct (on_nema_io_write NEMA_REG_OP NEMA_REG_OP_SUBMIT_COMMAND 4
                idle_world) as [o w'].
    simpl in H1, H5. now subst.
  - apply (non_submit_write_draws_nothing NEMA_REG_SIG
             NEMA_REG_OP_SIGNAL_RECEIVED 4 idle_world).
    intros [H _]. discriminate H.
Defined.

(** X2: a record whose opcode is none of the eleven, the zeroed record
    included, and a BIND_TEX whose selector is none of destination, source
    and mask, make the handler exit; nothing is logged and nothing is
    changed. *)
Theorem unknown_command_exits cmd ctx w :
  (op cmd < 1 \/ 11 < op cmd) \/
  (op cmd = NEMA_OP_BIND_TEX /\ u_int_8_a cmd <> NEMA_TEX0 /\
   u_int_8_a cmd <> NEMA_TEX1 /\ u_int_8_a cmd <> NEMA_TEX3) ->
  process_cmd cmd ctx w = (Exited, w).
Proof.
  intros [H | [H1 [H2 [H3 H4]]]]; unfold process_cmd.
  - assert (E : forall k, 1 <= k <= 11 -> (op cmd =? k) = false)
      by (intros k Hk; apply Z.eqb_neq; lia).
    unfold NEMA_OP_BIND_TEX, NEMA_OP_SET_CLIP, NEMA_OP_SET_BLEND_BLIT,
      NEMA_OP_SET_BLEND_FILL, NEMA_OP_SET_CONST_COLOR, NEMA_OP_DRAW_LINE,
      NEMA_OP_BLIT, NEMA_OP_FILL_RECT, NEMA_OP_DRAW_RECT,
      NEMA_OP_FILL_RECT_ROUNDED, NEMA_OP_DRAW_RECT_ROUNDED.
    rewrite !E by lia. reflexivity.
  - rewrite H1. apply Z.eqb_neq in H2, H3, H4.
    rewrite Z.eqb_refl, H2, H3, H4. reflexivity.
Qed.

(** The zeroed record, and a bind to the unused selector [NEMA_TEX2]. *)
Lemma unknown_command_exits_witness :
  process_cmd (sample_cmd 0 0 0 0 0 0 0) ctx_zero idle_world
    = (Exited, idle_world) /\
  process_cmd (sample_cmd NEMA_OP_BIND_TEX NEMA_TEX2 8 8 0 32 0) ctx_dest_8x8
    idle_world = (Exited, idle_world).
Proof.
  split.
  - apply (unknown_command_exits (sample_cmd 0 0 0 0 0 0 0)).
    left. left. simpl. lia.
  - apply (unknown_command_exits
             (sample_cmd NEMA_OP_BIND_TEX NEMA_TEX2 8 8 0 32 0)).
    right. repeat split; discriminate.
Defined.

(** X3: SET_CLIP, SET_BLEND_FILL, SET_BLEND_BLIT and SET_CONST_COLOR always
    return and call nothing: no pixel is written, nothing is mapped or
    released, the interrupt line and guest memory stay, and the textures
    and the surface bound in the context stay bound.  SET_CLIP changes the
    device only, the other three the context only. *)
Theorem state_commands_only_set_state cmd ctx w :
  is_state_op (op cmd) = true ->
  exists ctx' w',
    process_cmd cmd ctx w = (Done ctx', w') /\
    calls w' = calls w /\ ram w' = ram w /\
    inst_processed (dev w') = inst_processed (dev w) /\
    dest_tex ctx' = dest_tex ctx /\ src_tex ctx' = src_tex ctx /\
    mask_tex ctx' = mask_tex ctx /\ dest_surface ctx' = dest_surface ctx /\
    (op cmd = NEMA_OP_SET_CLIP -> ctx' = ctx) /\
    (op cmd <> NEMA_OP_SET_CLIP -> w' = w).
Proof.
  intro H. apply is_state_op_cases in H.
  destruct H as [E | [E | [E | E]]];
    [ rewrite (process_cmd_set_clip _ _ E)
    | rewrite (process_cmd_set_blend_blit _ _ E)
    | rewrite (process_cmd_set_blend_fill _ _ E)
    | rewrite (process_cmd_set_const_color _ _ E) ];
    do 2 eexists; (split; [ reflexivity | ]);
    repeat split; try reflexivity; intro H; try reflexivity;
    rewrite E in H; try discriminate H; now contradiction H.
Qed.

Lemma state_commands_only_set_state_witness :
  exists ctx' w',
    process_cmd set_clip_8x8 ctx_dest_8x8 idle_world = (Done ctx', w') /\
    calls w' = [] /\ dest_tex ctx' = dest_tex ctx_dest_8x8.
Proof.
  destruct (state_commands_only_set_state set_clip_8x8 ctx_dest_8x8
              idle_world eq_refl)
    as [ctx' [w' [H [Hc [_ [_ [Hd _]]]]]]].
  exists ctx', w'. repeat split; assumption.
Defined.

(** X4: how the state commands compose.  Of two SET_CLIP in a row the
    second wins: the result is that of the second alone.  SET_CLIP and a
    blend or colour command can be issued in either order, the context and
    the device end the same. *)
Theorem set_clip_composes c1 c2 ctx w :
  op c1 = NEMA_OP_SET_CLIP ->
  is_state_op (op c2) = true ->
  if op c2 =? NEMA_OP_SET_CLIP
  then run2 c1 c2 ctx w = process_cmd c2 ctx w
  else run2 c1 c2 ctx w = run2 c2 c1 ctx w.
Proof.
  intros E1 H. apply is_state_op_cases in H. unfold run2, bind.
  destruct H as [E | [E | [E | E]]]; rewrite E;
    cbn [Z.eqb Pos.eqb NEMA_OP_SET_CLIP NEMA_OP_SET_BLEND_BLIT
           NEMA_OP_SET_BLEND_FILL NEMA_OP_SET_CONST_COLOR];
    rewrite (process_cmd_set_clip_at _ _ _ E1); cbv beta iota.
  - rewrite !(process_cmd_set_clip_at _ _ _ E). reflexivity.
  - rewrite !(process_cmd_set_blend_blit _ _ E). unfold ret.
    rewrite (process_cmd_set_clip_at _ _ _ E1). reflexivity.
  - rewrite !(process_cmd_set_blend_fill _ _ E). unfold ret.
    rewrite (process_cmd_set_clip_at _ _ _ E1). reflexivity.
  - rewrite !(process_cmd_set_const_color _ _ E). unfold ret.
    rewrite (process_cmd_set_clip_at _ _ _ E1). reflexivity.
Qed.

(** A clip of 8x8 replaced by one of 4x4, and a clip swapped with a blend
    mode. *)
Lemma set_clip_composes_witness :
  run2 set_clip_8x8 (sample_cmd 2 0 4 4 0 0 0) ctx_zero idle_world =
    process_cmd (sample_cmd 2 0 4 4 0 0 0) ctx_zero idle_world /\
  run2 set_clip_8x8 set_blend_fill_simple ctx_zero idle_world =
    run2 set_blend_fill_simple set_clip_8x8 ctx_zero idle_world.
Proof.
  split.
  - apply (set_clip_composes set_clip_8x8 (sample_cmd 2 0 4 4 0 0 0)
             ctx_zero idle_world eq_refl eq_refl).
  - apply (set_clip_composes set_clip_8x8 set_blend_fill_simple
             ctx_zero idle_world eq_refl eq_refl).
Defined.

(** ** Binding textures *)

Lemma uint32_mul_int32 a b : uint32 (a * int32 b) = uint32 (a * b).
Proof.
  unfold uint32, int32.
  destruct (b mod 4294967296 <? 2147483648).
  - rewrite Z.mul_mod_idemp_r by lia. reflexivity.
  - replace (a * (b mod 4294967296 - 4294967296))
      with (a * (b mod 4294967296) + (- a) * 4294967296) by ring.
    rewrite Z.mod_add by lia.
    rewrite Z.mul_mod_idemp_r by lia. reflexivity.
Qed.

Lemma nth_error_read_from {A} (mem : Z -> A) n : forall addr k,
  (k < n)%nat ->
  nth_error (read_from mem addr n) k = Some (mem (addr + Z.of_nat k)).
Proof.
  induction n as [ | n IH]; intros addr k Hk; [ lia | ].
  destruct k as [ | k]; simpl read_from.
  - simpl. now rewrite Z.add_0_r.
  - cbn [nth_error]. rewrite IH by lia. f_equal. f_equal. lia.
Qed.

Lemma sequence_opt_none {A} (l : list (option A)) :
  sequence_opt l = None <-> In None l.
Proof.
  induction l as [ | [a | ] l IH]; simpl.
  - split; [ discriminate | tauto ].
  - destruct (sequence_opt l).
    + split; [ discriminate | ].
      intros [H | H]; [ discriminate | ]. apply IH in H. discriminate.
    + split; [ intros _; right; now apply IH | reflexivity ].
  - split; [ now left | reflexivity ].
Qed.

Lemma sequence_opt_some {A} (l : list (option A)) : forall r,
  sequence_opt l = Some r -> l = map Some r.
Proof.
  induction l as [ | [a | ] l IH]; simpl; intros r H.
  - now inversion H.
  - destruct (sequence_opt l) as [r' | ]; [ | discriminate ].
    inversion H. simpl. f_equal. now apply IH.
  - discriminate.
Qed.

Lemma read_tex_dest cmd w :
  read_tex cmd PIXMAN_a8r8g8b8 true w =
    let len := uint32 (int_a cmd * u_int_b cmd) in
    let granted := phys_map w (addr_a cmd) len in
    if granted =? 0 then (Exited, w)
    else if negb (len =? granted) then (Exited, w)
    else (Done (pixman_image_create_bits PIXMAN_a8r8g8b8
                  (int32 (u_int_a cmd)) (int32 (u_int_b cmd))
                  (MappedBits (addr_a cmd) granted) (int_a cmd),
                MappedBits (addr_a cmd) granted), w).
Proof.
  unfold read_tex, bind, cpu_physical_memory_map, exit_failure, ret.
  cbv zeta.
  destruct (phys_map w (addr_a cmd) (uint32 (int_a cmd * u_int_b cmd)) =? 0);
    [ reflexivity | ].
  destruct (uint32 (int_a cmd * u_int_b cmd)
            =? phys_map w (addr_a cmd) (uint32 (int_a cmd * u_int_b cmd)));
    reflexivity.
Qed.

(** X5: a destination bind asks for a write mapping of stride times height
    bytes (in 32 bits) at the address of the record.  When the platform
    grants another length, or the destination is zero-sized, the handler
    exits.  When it grants exactly that, and the geometry is one pixman and
    cairo make an image of (a stride that is a multiple of 4 and holds a
    row of 32-bit pixels, width and height within 32767), the handler
    returns, the destination texture and the cairo surface of the context
    are made over that one mapping with the stride of the record, the
    source, the mask and the blend state are left alone, and the write-back
    a later clean-up issues covers exactly the mapped length. *)
Theorem dest_bind_maps_exactly cmd ctx w :
  op cmd = NEMA_OP_BIND_TEX -> u_int_8_a cmd = NEMA_TEX0 ->
  let len := uint32 (int_a cmd * u_int_b cmd) in
  let data := MappedBits (addr_a cmd) len in
  if (phys_map w (addr_a cmd) len =? len) && negb (len =? 0) then
    image_geometry_accepted cmd ->
    exists ctx',
      process_cmd cmd ctx w = (Done ctx', w) /\
      dest_tex ctx' =
        Some (pixman_image_create_bits PIXMAN_a8r8g8b8 (int32 (u_int_a cmd))
                (int32 (u_int_b cmd)) data (int_a cmd)) /\
      dest_surface ctx' =
        Some (cairo_image_surface_create_for_data data (int32 (u_int_a cmd))
                (int32 (u_int_b cmd)) (int_a cmd)) /\
      src_tex ctx' = src_tex ctx /\ mask_tex ctx' = mask_tex ctx /\
      blending_mode ctx' = blending_mode ctx /\
      const_color_set ctx' = const_color_set ctx /\
      unmap_calls ctx' = [Unmap data len]
  else process_cmd cmd ctx w = (Exited, w).
Proof.
  intros H1 H2 len data. rewrite (process_cmd_bind_dest _ _ H1 H2).
  unfold bind. rewrite !read_tex_dest. cbv zeta. fold len.
  destruct (phys_map w (addr_a cmd) len =? len) eqn:Eg.
  - apply Z.eqb_eq in Eg. rewrite Eg.
    destruct (len =? 0) eqn:E0; [ reflexivity | ].
    rewrite Z.eqb_refl. cbn [negb andb]. intros _.
    eexists. split; [ reflexivity | ].
    repeat split.
    unfold unmap_calls. cbn [dest_tex set_dest_surface set_dest_tex
      pixman_image_create_bits img_data img_stride img_height].
    rewrite uint32_mul_int32. reflexivity.
  - cbn [andb].
    destruct (phys_map w (addr_a cmd) len =? 0); [ reflexivity | ].
    rewrite Z.eqb_sym, Eg. reflexivity.
Qed.

(** The 8x8 destination is bound; with a platform that grants a byte less
    the bind exits. *)
Lemma dest_bind_maps_exactly_witness :
  (exists ctx',
     process_cmd bind_dest_8x8 ctx_zero idle_world = (Done ctx', idle_world) /\
     unmap_calls ctx' = [Unmap (MappedBits 4096 256) 256]) /\
  let short :=
    {| dev := dev_reset; ram := fun _ => 7; itcm := fun _ => None;
       phys_map := fun _ len => len - 1; cl_mem := sample_list [];
       calls := [] |} in
  process_cmd bind_dest_8x8 ctx_zero short = (Exited, short).
Proof.
  split.
  - destruct (dest_bind_maps_exactly bind_dest_8x8 ctx_zero idle_world
                eq_refl eq_refl
                ltac:(unfold image_geometry_accepted; simpl;
                      repeat split; lia))
      as [ctx' [H [_ [_ [_ [_ [_ [_ Hu]]]]]]]].
    exists ctx'. split; assumption.
  - intro short.
    apply (dest_bind_maps_exactly bind_dest_8x8 ctx_zero short
             eq_refl eq_refl).
Defined.

Lemma read_tex_src cmd w :
  read_tex cmd PIXMAN_a8r8g8b8 false w =
    match fetch_tex w (addr_a cmd) (uint32 (int_a cmd * u_int_b cmd)) with
    | Some bytes =>
        (Done (pixman_image_create_bits PIXMAN_a8r8g8b8
                 (int32 (u_int_a cmd)) (int32 (u_int_b cmd))
                 (OwnedBits bytes) (int_a cmd), OwnedBits bytes), w)
    | None => (Exited, w)
    end.
Proof.
  unfold read_tex, bind, ret.
  destruct (fetch_tex w (addr_a cmd) (uint32 (int_a cmd * u_int_b cmd)));
    reflexivity.
Qed.

(** X6: a source bind copies stride times height bytes (in 32 bits).  For
    an address strictly between 0x10000000 and 0x20000000 the bytes come
    from the ITCM address space at the address less 0x10000000, and the
    handler exits when one of them cannot be read; for any other address,
    the two bounds included, they come from guest RAM and the read cannot
    fail.  When the bytes were read and the stride is a multiple of 4, as
    pixman requires of a buffer it is handed, the copy is what gets bound
    as source; the destination and the mask stay. *)
Theorem source_bind_reads cmd ctx w :
  op cmd = NEMA_OP_BIND_TEX -> u_int_8_a cmd = NEMA_TEX1 ->
  let len := uint32 (int_a cmd * u_int_b cmd) in
  let flash := (268435456 <? addr_a cmd) && (addr_a cmd <? 536870912) in
  let mem a :=
    if flash then itcm w (a - 268435456) else Some (ram w a) in
  if existsb (fun k => is_null (mem (addr_a cmd + Z.of_nat k)))
       (seq 0 (Z.to_nat len))
  then flash = true /\ process_cmd cmd ctx w = (Exited, w)
  else
    int_a cmd mod 4 = 0 ->
    exists bytes,
      process_cmd cmd ctx w =
        (Done (set_src_tex
                 (Some (pixman_image_create_bits PIXMAN_a8r8g8b8
                          (int32 (u_int_a cmd)) (int32 (u_int_b cmd))
                          (OwnedBits bytes) (int_a cmd))) ctx), w) /\
      Z.of_nat (length bytes) = len /\
      forall k, (k < Z.to_nat len)%nat ->
        mem (addr_a cmd + Z.of_nat k) = nth_error bytes k.
Proof.
  intros H1 H2 len flash mem. rewrite (process_cmd_bind_src _ _ H1 H2).
  assert (Hlen : 0 <= len) by (apply Z.mod_pos_bound; lia).
  unfold bind. rewrite !read_tex_src. unfold fetch_tex. fold len flash.
  destruct flash eqn:Ef; subst mem; cbv beta iota.
  - unfold read_bytes_opt.
    destruct (sequence_opt
                (read_from (itcm w) (addr_a cmd - 268435456) (Z.to_nat len)))
      as [bytes | ] eqn:Es.
    + apply sequence_opt_some in Es.
      assert (Hl : length bytes = Z.to_nat len).
      { rewrite <- (length_map Some bytes), <- Es.
        apply length_read_from. }
      assert (Hk : forall k, (k < Z.to_nat len)%nat ->
                 itcm w (addr_a cmd + Z.of_nat k - 268435456)
                 = nth_error bytes k).
      { intros k Hk.
        pose proof (nth_error_read_from (itcm w) (Z.to_nat len)
                      (addr_a cmd - 268435456) k Hk) as Hn.
        rewrite Es, nth_error_map in Hn.
        destruct (nth_error bytes k) as [b | ] eqn:Eb.
        - simpl in Hn. inversion Hn as [Hb]. rewrite Hb. f_equal. lia.
        - apply nth_error_None in Eb. lia. }
      destruct (existsb _ _) eqn:Ee.
      * exfalso. apply existsb_exists in Ee. destruct Ee as [k [Hin Hnull]].
        apply in_seq in Hin. rewrite Hk in Hnull by lia.
        destruct (nth_error bytes k) eqn:Eb; [ discriminate | ].
        apply nth_error_None in Eb. lia.
      * intros _. exists bytes.
        split; [ reflexivity | ]. split; [ lia | exact Hk ].
    + apply sequence_opt_none in Es. apply In_nth_error in Es.
      destruct Es as [k Hk].
      assert (Hlt : (k < Z.to_nat len)%nat).
      { rewrite <- (length_read_from (itcm w) (Z.to_nat len)
                      (addr_a cmd - 268435456)).
        apply nth_error_Some. rewrite Hk. discriminate. }
      rewrite nth_error_read_from in Hk by exact Hlt.
      replace (existsb _ _) with true; [ now split | ].
      symmetry. apply existsb_exists. exists k. split.
      * apply in_seq. lia.
      * replace (addr_a cmd + Z.of_nat k - 268435456)
          with (addr_a cmd - 268435456 + Z.of_nat k) by lia.
        inversion Hk as [Hn]. rewrite Hn. reflexivity.
  - replace (existsb _ _) with false.
    2:{ symmetry. apply not_true_is_false. intro He.
        apply existsb_exists in He. destruct He as [k [_ Hn]].
        discriminate Hn. }
    intros _. exists (read_bytes (ram w) (addr_a cmd) len).
    split; [ reflexivity | ]. split.
    + rewrite length_read_bytes. lia.
    + intros k Hk. unfold read_bytes.
      now rewrite nth_error_read_from.
Qed.

(** Sixteen bytes bound from RAM at a stride of 8; a bind from the flash
    window of a machine without ITCM exits. *)
Lemma source_bind_reads_witness :
  let from_ram :=
    {| op := 1; addr_a := 4096; addr_b := 0; u_int_8_a := 2; u_int_a := 2;
       u_int_b := 2; u_int_c := 0; int_a := 8; int_b := 0; int_c := 0;
       int_d := 0 |} in
  let from_flash :=
    {| op := 1; addr_a := 268435457; addr_b := 0; u_int_8_a := 2;
       u_int_a := 2; u_int_b := 2; u_int_c := 0; int_a := 8; int_b := 0;
       int_c := 0; int_d := 0 |} in
  (exists bytes,
     fst (process_cmd from_ram ctx_zero idle_world) =
       Done (set_src_tex
               (Some (pixman_image_create_bits PIXMAN_a8r8g8b8 2 2
                        (OwnedBits bytes) 8)) ctx_zero) /\
     Z.of_nat (length bytes) = 16) /\
  process_cmd from_flash ctx_zero idle_world = (Exited, idle_world).
Proof.
  intros from_ram from_flash. split.
  - pose proof (source_bind_reads from_ram ctx_zero idle_world
                  eq_refl eq_refl) as H.
    cbv zeta in H. change (existsb _ _) with false in H. cbv iota in H.
    destruct (H eq_refl) as [bytes [Hb [Hl _]]]. exists bytes.
    rewrite Hb. split; [ reflexivity | exact Hl ].
  - pose proof (source_bind_reads from_flash ctx_zero idle_world
                  eq_refl eq_refl) as H.
    cbv zeta in H. change (existsb _ _) with true in H. cbv iota in H.
    exact (proj2 H).
Defined.

(** ** What a drawing operation leaves in the log *)

Lemma blend_outcome ctx w :
  match blend_opacity_if_needed ctx w with
  | (Done c, w1) =>
      dest_tex c = dest_tex ctx /\ src_tex c = src_tex ctx /\
      calls w1 = calls w /\ dev w1 = dev w
  | (Exited, w1) => dest_tex ctx = None /\ w1 = w
  | (Undefined _, w1) => w1 = w
  end.
Proof.
  unfold blend_opacity_if_needed.
  destruct (Z.land (blending_mode ctx) NEMA_BL_OPA =? 0);
    [ unfold ret; repeat split | ].
  destruct (mask_tex ctx) as [m | ].
  - destruct (img_data m) as [a l | data].
    + unfold ret. cbv beta iota. repeat split.
    + destruct (Z.of_nat (length data)
                <? uint32 (img_stride m * img_height m));
        unfold undefined, ret; cbv beta iota; repeat split.
  - destruct (dest_tex ctx) as [d | ] eqn:Ed;
      unfold exit_failure, ret; cbv beta iota; repeat split;
      cbn [dest_tex set_mask_tex]; exact Ed.
Qed.

Lemma execute_fill_rect_eq cmd ctx w :
  execute_fill_rect cmd ctx w =
    if ctx_ready (dev w) ctx then
      match blend_opacity_if_needed ctx w with
      | (Done c, w1) =>
          (Done c,
           log_calls
             [PixmanComposite
                {| cc_src := SolidFill (u_int_c cmd); cc_mask := mask_tex c;
                   cc_dest := dest_tex c;
                   cc_clip := pixman_clip_region (dev w1);
                   cc_dest_x := int16 (int_a cmd);
                   cc_dest_y := int16 (int_b cmd);
                   cc_width := uint16 (u_int_a cmd);
                   cc_height := uint16 (u_int_b cmd) |}] w1)
      | (Exited, w1) => (Exited, w1)
      | (Undefined u, w1) => (Undefined u, w1)
      end
    else (Exited, w).
Proof.
  unfold execute_fill_rect. unfold bind at 1. rewrite validate_ctx_spec.
  destruct (ctx_ready (dev w) ctx); [ | reflexivity ].
  unfold bind at 1.
  destruct (blend_opacity_if_needed ctx w) as [[c | | u] w1]; reflexivity.
Qed.

Lemma execute_blit_eq ctx w :
  execute_blit ctx w =
    if ctx_ready (dev w) ctx && negb (is_null (src_tex ctx)) then
      match blend_opacity_if_needed ctx w with
      | (Done c, w1) =>
          (Done c,
           log_calls
             [PixmanComposite
                {| cc_src := SourceImage (src_tex c); cc_mask := mask_tex c;
                   cc_dest := dest_tex c;
                   cc_clip := pixman_clip_region (dev w1);
                   cc_dest_x := 0; cc_dest_y := 0;
                   cc_width :=
                     uint16 (match dest_tex c with
                             | Some d => img_width d | None => 0 end);
                   cc_height :=
                     uint16 (match dest_tex c with
                             | Some d => img_height d | None => 0 end) |}]
             w1)
      | (Exited, w1) => (Exited, w1)
      | (Undefined u, w1) => (Undefined u, w1)
      end
    else (Exited, w).
Proof.
  unfold execute_blit. unfold bind at 1. rewrite validate_ctx_spec.
  destruct (ctx_ready (dev w) ctx) eqn:Er; [ | reflexivity ].
  assert (Hd : is_null (dest_tex ctx) = false).
  { unfold ctx_ready in Er. destruct (is_null (dest_tex ctx));
      [ | reflexivity ].
    rewrite !andb_false_r in Er. simpl in Er. discriminate Er. }
  unfold bind at 1, assert_not_null at 1. rewrite Hd.
  unfold bind at 1, assert_not_null, ret.
  destruct (is_null (src_tex ctx)); [ reflexivity | ].
  cbn [andb negb]. unfold bind at 1.
  destruct (blend_opacity_if_needed ctx w) as [[c | | u] w1]; reflexivity.
Qed.

(** X7: whichever of the six drawing operations it is, when the handler
    returns it has made exactly one pixel write, and after it the release
    of what was bound: the write-back of the destination mapping when a
    destination was bound, nothing otherwise.  Nothing else is called. *)
Theorem draw_paints_once_then_writes_back cmd ctx w ctx' w' :
  is_draw_op (op cmd) = true ->
  process_cmd cmd ctx w = (Done ctx', w') ->
  exists e,
    is_pixel_write e = true /\
    calls w' = calls w ++ e :: unmap_calls ctx.
Proof.
  intros Hop H. apply is_draw_op_cases in Hop.
  destruct Hop as [E | [E | [E | [E | [E | E]]]]].
  - rewrite (draw_line_spec _ _ _ E) in H.
    destruct (is_null (mask_tex ctx)); [ | discriminate H ].
    eexists. split; [ | apply (f_equal snd) in H; cbn [snd] in H;
                        rewrite <- H; reflexivity ].
    reflexivity.
  - rewrite (process_cmd_blit _ _ E) in H.
    apply bind_done in H. destruct H as [c [w1 [Hb Hc]]].
    rewrite clean_up_ctx_spec in Hc. rewrite execute_blit_eq in Hb.
    destruct (ctx_ready (dev w) ctx && negb (is_null (src_tex ctx)));
      [ | discriminate Hb ].
    pose proof (blend_outcome ctx w) as Ho.
    destruct (blend_opacity_if_needed ctx w) as [[c0 | | u] w0];
      try discriminate Hb.
    destruct Ho as [Hd [_ [Hcalls _]]].
    eexists. split; cycle 1.
    { apply (f_equal snd) in Hc. cbn [snd] in Hc. rewrite <- Hc.
      assert (Ec : c = c0) by (apply (f_equal fst) in Hb; cbn [fst] in Hb;
                               congruence).
      apply (f_equal snd) in Hb. cbn [snd] in Hb. rewrite <- Hb.
      cbn [calls log_calls]. rewrite Hcalls, <- app_assoc.
      unfold unmap_calls. rewrite Ec, Hd. reflexivity. }
    reflexivity.
  - rewrite (process_cmd_fill_rect _ _ E) in H.
    apply bind_done in H. destruct H as [c [w1 [Hb Hc]]].
    rewrite clean_up_ctx_spec in Hc. rewrite execute_fill_rect_eq in Hb.
    destruct (ctx_ready (dev w) ctx); [ | discriminate Hb ].
    pose proof (blend_outcome ctx w) as Ho.
    destruct (blend_opacity_if_needed ctx w) as [[c0 | | u] w0];
      try discriminate Hb.
    destruct Ho as [Hd [_ [Hcalls _]]].
    eexists. split; cycle 1.
    { apply (f_equal snd) in Hc. cbn [snd] in Hc. rewrite <- Hc.
      assert (Ec : c = c0) by (apply (f_equal fst) in Hb; cbn [fst] in Hb;
                               congruence).
      apply (f_equal snd) in Hb. cbn [snd] in Hb. rewrite <- Hb.
      cbn [calls log_calls]. rewrite Hcalls, <- app_assoc.
      unfold unmap_calls. rewrite Ec, Hd. reflexivity. }
    reflexivity.
  - rewrite (draw_rect_spec _ _ _ E) in H.
    eexists. split; [ | apply (f_equal snd) in H; cbn [snd] in H;
                        rewrite <- H; reflexivity ].
    reflexivity.
  - rewrite (rounded_rect_spec _ _ _ (or_introl E)) in H.
    eexists. split; [ | apply (f_equal snd) in H; cbn [snd] in H;
                        rewrite <- H; reflexivity ].
    reflexivity.
  - rewrite (rounded_rect_spec _ _ _ (or_intror E)) in H.
    eexists. split; [ | apply (f_equal snd) in H; cbn [snd] in H;
                        rewrite <- H; reflexivity ].
    reflexivity.
Qed.

(** A simple fill of the 8x8 destination: one composite, then the
    write-back of the 256 mapped bytes. *)
Lemma draw_paints_once_then_writes_back_witness :
  let w := sample_world dev_clipped (sample_list []) in
  let ctx := set_blending BLEND_FILL NEMA_BL_SIMPLE ctx_dest_8x8 in
  exists e,
    is_pixel_write e = true /\
    calls (snd (process_cmd fill_red_8x8 ctx w)) =
      [e; Unmap (MappedBits 4096 256) 256].
Proof.
  intros w ctx.
  assert (H : process_cmd fill_red_8x8 ctx w =
              (Done ctx_zero, snd (process_cmd fill_red_8x8 ctx w)))
    by (vm_compute; reflexivity).
  exact (draw_paints_once_then_writes_back fill_red_8x8 ctx w _ _
           eq_refl H).
Defined.

Lemma ready_has_dest ds ctx :
  ctx_ready ds ctx = true -> dest_tex ctx <> None.
Proof.
  unfold ctx_ready. intros H E. rewrite E in H. simpl in H.
  rewrite andb_false_r in H. discriminate H.
Qed.

(** X8: on a ready pipeline the validation is the only reason for
    FILL_RECT to exit, so it does not; BLIT exits exactly when no source
    texture is bound.  When BLIT exits nothing has been called: no pixel
    was written and the destination mapping was not released. *)
Theorem ready_composite_exits_only_without_source cmd ctx w :
  is_composite_op (op cmd) = true ->
  ctx_ready (dev w) ctx = true ->
  let r := process_cmd cmd ctx w in
  (fst r = Exited <-> op cmd = NEMA_OP_BLIT /\ src_tex ctx = None) /\
  (fst r = Exited -> snd r = w).
Proof.
  intros Hop Hr r. subst r. unfold is_composite_op in Hop.
  apply orb_true_iff in Hop. rewrite !Z.eqb_eq in Hop.
  pose proof (ready_has_dest _ _ Hr) as Hd.
  pose proof (blend_outcome ctx w) as Ho.
  destruct Hop as [E | E].
  - rewrite (process_cmd_blit _ _ E). unfold bind.
    rewrite execute_blit_eq, Hr.
    destruct (src_tex ctx) as [s | ] eqn:Es; cbn [is_null negb andb].
    + destruct (blend_opacity_if_needed ctx w) as [[c | | u] w1].
      * rewrite clean_up_ctx_spec. cbn [fst snd].
        split; [ split; [ discriminate | intros [_ H]; discriminate H ]
               | discriminate ].
      * destruct Ho as [Ho _]. contradiction.
      * cbn [fst snd].
        split; [ split; [ discriminate | intros [_ H]; discriminate H ]
               | discriminate ].
    + cbn [fst snd]. repeat split.
      exact E.
  - rewrite (process_cmd_fill_rect _ _ E). unfold bind.
    rewrite execute_fill_rect_eq, Hr.
    destruct (blend_opacity_if_needed ctx w) as [[c | | u] w1].
    + rewrite clean_up_ctx_spec. cbn [fst snd].
      split; [ split; [ discriminate | ] | discriminate ].
      intros [H _]. rewrite E in H. discriminate H.
    + destruct Ho as [Ho _]. contradiction.
    + cbn [fst snd].
      split; [ split; [ discriminate | ] | discriminate ].
      intros [H _]. rewrite E in H. discriminate H.
Qed.

(** A blit on a ready pipeline that has no source bound. *)
Lemma ready_composite_exits_only_without_source_witness :
  let w := sample_world dev_clipped (sample_list []) in
  let ctx := set_blending BLEND_BLIT NEMA_BL_SIMPLE ctx_dest_8x8 in
  fst (process_cmd (sample_cmd NEMA_OP_BLIT 0 0 0 0 0 0) ctx w) = Exited.
Proof.
  intros w ctx.
  apply (proj1 (ready_composite_exits_only_without_source
                  (sample_cmd NEMA_OP_BLIT 0 0 0 0 0 0) ctx w
                  eq_refl eq_refl)).
  split; reflexivity.
Defined.

Lemma land_255_top_byte c : Z.land (Z.shiftr c 24) 255 = top_byte c.
Proof.
  unfold top_byte. rewrite Z.shiftr_div_pow2 by lia.
  change 255 with (Z.ones 8). rewrite Z.land_ones by lia.
  reflexivity.
Qed.

(** X9: DRAW_LINE checks one thing only: with a mask bound it exits, with
    nothing called.  Otherwise it returns, whether or not a destination is
    bound and whether or not the clip was ever set: it strokes the line on
    what the context has as destination surface, under the clip rectangle
    of the device, in the colour of the record, and multiplies the alpha by
    the top byte of the constant colour exactly when the has-opacity flag
    is on. *)
Theorem draw_line_refuses_only_a_mask cmd ctx w :
  op cmd = NEMA_OP_DRAW_LINE ->
  let r := process_cmd cmd ctx w in
  (mask_tex ctx <> None -> r = (Exited, w)) /\
  (mask_tex ctx = None ->
   fst r = Done ctx_zero /\
   exists c,
     calls (snd r) = calls w ++ CairoPaint c :: unmap_calls ctx /\
     cr_surface c = dest_surface ctx /\
     cr_clip c = Some (nema_clip_region (dev w)) /\
     cr_path c = PathLine (int_a cmd) (int_b cmd) (int_c cmd) (int_d cmd)
                   (u_int_a cmd) /\
     cr_color c = u_int_b cmd /\ cr_paint c = Stroke /\
     cr_opacity c =
       if has_flag (blending_mode ctx) NEMA_BL_OPA
       then Some (top_byte (const_color ctx)) else None).
Proof.
  intros Hop r. subst r. rewrite (draw_line_spec _ _ _ Hop).
  split; intro Hm.
  - destruct (mask_tex ctx); [ reflexivity | now contradiction Hm ].
  - rewrite Hm. cbn [is_null fst snd]. split; [ reflexivity | ].
    eexists. split; [ reflexivity | ].
    cbn [cr_surface cr_clip cr_path cr_color cr_paint cr_opacity].
    repeat split. unfold has_flag.
    destruct (Z.land (blending_mode ctx) NEMA_BL_OPA =? 0);
      cbn [negb]; [ reflexivity | ].
    now rewrite land_255_top_byte.
Qed.

(** A line with nothing bound and no clip set still paints; with a mask
    bound it exits. *)
Lemma draw_line_refuses_only_a_mask_witness :
  let line := sample_cmd NEMA_OP_DRAW_LINE 0 1 4278190080 0 0 0 in
  fst (process_cmd line ctx_zero idle_world) = Done ctx_zero /\
  process_cmd line ctx_masked_opa idle_world = (Exited, idle_world).
Proof.
  intro line. split.
  - apply (proj2 (draw_line_refuses_only_a_mask line ctx_zero idle_world
                    eq_refl) eq_refl).
  - apply (proj1 (draw_line_refuses_only_a_mask line ctx_masked_opa
                    idle_world eq_refl)).
    discriminate.
Defined.

(** ** Numbers *)

(** X10: the opacity scaling [(byte * opacity) >> 8] never raises a byte
    and never exceeds the opacity; it cannot produce 255; opacity 0 clears
    the byte; and full opacity 255 is not the identity: every nonzero byte
    comes out one less. *)
Theorem scale_byte_darkens o b :
  is_byte o -> is_byte b ->
  0 <= scale_byte o b <= b /\ scale_byte o b <= o /\
  scale_byte o b < 255 /\
  (o = 0 -> scale_byte o b = 0) /\
  (o = 255 -> 0 < b -> scale_byte o b = b - 1).
Proof.
  intros Ho Hb. rewrite (scale_byte_shift o b Ho Hb).
  unfold is_byte in *.
  rewrite Z.shiftr_div_pow2 by lia. change (2 ^ 8) with 256.
  assert (H0 : 0 <= b * o / 256) by (apply Z.div_pos; nia).
  assert (H1 : b * o / 256 <= b)
    by (apply Z.div_le_upper_bound; nia).
  assert (H2 : b * o / 256 <= o)
    by (apply Z.div_le_upper_bound; nia).
  split; [ lia | split; [ lia | split; [ | split ] ] ].
  - apply Z.div_lt_upper_bound; nia.
  - intro E. subst o. rewrite Z.mul_0_r. reflexivity.
  - intros E Hp. subst o. symmetry.
    apply (Z.div_unique _ _ _ (256 - b)); lia.
Qed.

Lemma scale_byte_darkens_witness :
  scale_byte 255 255 = 254 /\ scale_byte 128 255 <= 128.
Proof.
  assert (Hb : is_byte 255) by (unfold is_byte; lia).
  assert (Ho : is_byte 128) by (unfold is_byte; lia).
  split.
  - apply (proj2 (proj2 (proj2 (proj2 (scale_byte_darkens 255 255 Hb Hb))))
             eq_refl).
    lia.
  - apply (proj1 (proj2 (scale_byte_darkens 128 255 Ho Hb))).
Defined.

Lemma length_copy_rows rows : forall src stride padding,
  (rows * stride <= length src)%nat ->
  length (copy_rows rows src stride padding) = (rows * (stride + padding))%nat.
Proof.
  induction rows as [ | rows IH]; intros src stride padding H;
    [ reflexivity | ].
  cbn [copy_rows]. rewrite !length_app, repeat_length, length_firstn.
  rewrite IH by (rewrite length_skipn; lia).
  rewrite Nat.min_l by lia. lia.
Qed.

(** X11: the padded copy of a mask whose stride is not a multiple of 4 is
    exactly (stride rounded up to 4) times height bytes long, and rounding
    is stable: asked again with the padded buffer and the padded stride it
    makes no second copy ([NULL]). *)
Theorem round_mask_size_and_stability mask s h :
  Z.rem s 4 <> 0 -> 0 < s -> 0 < h ->
  s * h <= Z.of_nat (length mask) ->
  exists buf,
    round_mask_if_needed mask s h = Done (Some buf) /\
    Z.of_nat (length buf) = round_up4 s * h /\
    round_mask_if_needed buf (round_up4 s) h = Done None.
Proof.
  intros Hr Hs Hh Hl. rewrite (round_mask_in_range _ _ _ Hr Hs Hh Hl).
  eexists. split; [ reflexivity | ].
  rewrite Z.rem_mod_nonneg in Hr by lia.
  pose proof (Z.mod_pos_bound s 4 ltac:(lia)) as Hb.
  split.
  - rewrite length_copy_rows by nia.
    rewrite (round_up4_unaligned s Hs Hr). nia.
  - unfold round_mask_if_needed.
    replace (Z.rem (round_up4 s) 4) with 0; [ reflexivity | ].
    unfold round_up4. rewrite Z.rem_mod_nonneg.
    + now rewrite Z.mod_mul by lia.
    + apply Z.mul_nonneg_nonneg; [ apply Z.div_pos | ]; lia.
    + lia.
Qed.

Lemma round_mask_size_and_stability_witness :
  exists buf,
    round_mask_if_needed [1; 2; 3; 4; 5; 6] 3 2 = Done (Some buf) /\
    Z.of_nat (length buf) = 8 /\
    round_mask_if_needed buf 4 2 = Done None.
Proof.
  apply (round_mask_size_and_stability [1; 2; 3; 4; 5; 6] 3 2).
  - vm_compute. discriminate.
  - lia.
  - lia.
  - simpl. lia.
Defined.

(** ** Submissions, once more *)

Lemma loop_oversized cl i ctx w :
  cmdlist_wf cl -> NEMA_MAX_CMD_COUNT < uint8 (next_cmd_slot cl) ->
  0 <= i <= NEMA_MAX_CMD_COUNT ->
  fst (process_cl_loop cl i ctx w) <> Done tt /\
  forall j, fst (process_cl_loop cl i ctx w) = Undefined (ArrayIndex j) ->
            j = NEMA_MAX_CMD_COUNT.
Proof.
  funelim (process_cl_loop cl i ctx w); intros Hwf Hn Hi;
    try rewrite <- Heqcall; cbn [fst].
  - lia.
  - (* the entry read is outside the array: it is entry 250 *)
    split; [ discriminate | ]. intros j Hj. inversion Hj. subst j.
    unfold list_at in Heq. destruct (i <? 0) eqn:E;
      [ apply Z.ltb_lt in E; lia | ].
    apply nth_error_None in Heq. unfold cmdlist_wf in Hwf. lia.
  - apply H; auto.
    assert (Hlt : i < NEMA_MAX_CMD_COUNT).
    { unfold list_at in Heq0. destruct (i <? 0); [ discriminate | ].
      assert (Hs : nth_error (cl_list cl) (Z.to_nat i) <> None)
        by (rewrite Heq0; discriminate).
      apply nth_error_Some in Hs. unfold cmdlist_wf in Hwf. lia. }
    unfold uint8, NEMA_MAX_CMD_COUNT in *.
    rewrite (Z.mod_small (i + 1) 256) by lia. lia.
  - split; discriminate.
  - split; [ discriminate | ]. intros j Hj. exfalso.
    pose proof (in_bounds_process_cmd cmd ctx
                  (snd (emit (Dispatch i cmd ctx) w)) j) as Hb.
    rewrite Heq in Hb. apply Hb. inversion Hj. reflexivity.
Qed.

(** X12: whatever the records are, a submission whose count byte is above
    250 never returns and never raises the completion interrupt: a handler
    exits on the way, or all 250 handlers return and the loop reads entry
    250, the only index outside the array it can reach. *)
Theorem oversized_count_never_completes w sz :
  cmdlist_wf (cl_mem w) ->
  NEMA_MAX_CMD_COUNT < uint8 (next_cmd_slot (cl_mem w)) ->
  let r := on_nema_io_write NEMA_REG_OP NEMA_REG_OP_SUBMIT_COMMAND_LIST sz w in
  fst r <> Done tt /\
  (forall j, fst r = Undefined (ArrayIndex j) -> j = NEMA_MAX_CMD_COUNT) /\
  exists body, calls (snd r) = calls w ++ body /\ irq_raises body = 0%nat.
Proof.
  intros Hwf Hn r. subst r.
  destruct (submit_cases w sz) as [E | E]; rewrite E.
  - cbn [fst snd]. split; [ discriminate | split; [ discriminate | ] ].
    exists []. now rewrite app_nil_r.
  - pose proof (loop_oversized (cl_mem w) 0 ctx_zero w Hwf Hn
                  ltac:(unfold NEMA_MAX_CMD_COUNT; lia)) as [Hd Hj].
    rewrite (process_cl_stops _ _ Hd).
    split; [ exact Hd | split; [ exact Hj | ] ].
    destruct (process_cl_loop_log (cl_mem w) 0 ctx_zero w ltac:(lia))
      as [body [k [Hc [Hi _]]]].
    exists body. split; assumption.
Qed.

(** A count of 255 over an array of zeroed records: record 0 exits. *)
Lemma oversized_count_never_completes_witness :
  let cl := {| cl_list := repeat (sample_cmd 0 0 0 0 0 0 0) 250;
               next_cmd_slot := 255 |} in
  let w := sample_world dev_reset cl in
  fst (on_nema_io_write NEMA_REG_OP NEMA_REG_OP_SUBMIT_COMMAND_LIST 4 w)
    <> Done tt.
Proof.
  intros cl w.
  apply (oversized_count_never_completes w 4).
  - reflexivity.
  - reflexivity.
Defined.

Lemma submit_done w sz :
  fst (on_nema_io_write NEMA_REG_OP NEMA_REG_OP_SUBMIT_COMMAND_LIST sz w)
    = Done tt ->
  let w' :=
    snd (on_nema_io_write NEMA_REG_OP NEMA_REG_OP_SUBMIT_COMMAND_LIST sz w) in
  inst_processed (dev w') = true /\
  exists new, calls w' = calls w ++ new /\ irq_raises new = 1%nat.
Proof.
  intros H w'. subst w'.
  destruct (submit_cases w sz) as [E | E]; rewrite E in *;
    [ discriminate H | ].
  assert (Hd : fst (process_cl_loop (cl_mem w) 0 ctx_zero w) = Done tt).
  { destruct (outcome_eq_done (fst (process_cl_loop (cl_mem w) 0 ctx_zero w)))
      as [Hd | Hd]; [ exact Hd | ].
    rewrite (process_cl_stops _ _ Hd) in H. contradiction. }
  rewrite (process_cl_done _ _ Hd). cbn [snd]. split; [ reflexivity | ].
  destruct (process_cl_loop_log (cl_mem w) 0 ctx_zero w ltac:(lia))
    as [body [k [Hc [Hi _]]]].
  exists (body ++ [IrqRaise]). split.
  - cbn [calls log_calls qemu_irq_set bind get_dev set_dev snd].
    change (calls (snd (qemu_irq_set true
                          (snd (process_cl_loop (cl_mem w) 0 ctx_zero w)))))
      with (calls (snd (process_cl_loop (cl_mem w) 0 ctx_zero w))).
    rewrite Hc, app_assoc. reflexivity.
  - rewrite irq_raises_app, Hi. reflexivity.
Qed.

Lemma non_submit_write_events offset val sz w :
  (offset =? NEMA_REG_OP) && (val =? NEMA_REG_OP_SUBMIT_COMMAND_LIST) = false ->
  let r := on_nema_io_write offset val sz w in
  let ack := (offset =? NEMA_REG_SIG) && (val =? NEMA_REG_OP_SIGNAL_RECEIVED) in
  inst_processed (dev (snd r)) =
    (if ack then false else inst_processed (dev w)) /\
  calls (snd r) = calls w ++ (if ack then [IrqLower] else []).
Proof.
  intros E r ack. subst r ack. unfold on_nema_io_write. rewrite E.
  destruct ((offset =? NEMA_REG_SIG) && (val =? NEMA_REG_OP_SIGNAL_RECEIVED)).
  - split; reflexivity.
  - cbn. now rewrite app_nil_r.
Qed.

(** X13: the completion line over a run of register writes.  When all the
    writes of a run returned, the interrupt was raised once for each list
    submission among them and for nothing else, and the line is left at the
    level the last submission or acknowledge of the run gives it: high
    after a submission, low after an acknowledge, as before the run when
    there was neither. *)
Theorem completion_line_protocol ws : forall w,
  fst (guest_writes ws w) = Done tt ->
  inst_processed (dev (snd (guest_writes ws w))) =
    line_after (inst_processed (dev w)) ws /\
  exists new,
    calls (snd (guest_writes ws w)) = calls w ++ new /\
    irq_raises new = length (filter is_submit ws).
Proof.
  induction ws as [ | [[cl offset] val] ws IH]; intros w H.
  - split; [ reflexivity | ]. exists []. now rewrite app_nil_r.
  - cbn [guest_writes] in *. unfold bind in *.
    destruct (on_nema_io_write offset val 4 (store_list cl w))
      as [[[] | | u] w1] eqn:E1; try discriminate H.
    destruct (IH w1 H) as [Hl [new [Hc Hi]]].
    assert (H1 : inst_processed (dev w1) =
                 (if is_submit (cl, offset, val) then true
                  else if is_acknowledge (cl, offset, val) then false
                       else inst_processed (dev w)) /\
                 exists n1, calls w1 = calls w ++ n1 /\
                   irq_raises n1 =
                     length (filter is_submit [(cl, offset, val)])).
    { cbn [is_submit is_acknowledge filter].
      destruct ((offset =? NEMA_REG_OP)
                && (val =? NEMA_REG_OP_SUBMIT_COMMAND_LIST)) eqn:Es.
      - apply andb_true_iff in Es. rewrite !Z.eqb_eq in Es.
        destruct Es as [Eo Ev]. subst offset val.
        pose proof (submit_done (store_list cl w) 4) as Hs.
        rewrite E1 in Hs. exact (Hs eq_refl).
      - pose proof (non_submit_write_events offset val 4 (store_list cl w))
          as Hs.
        specialize (Hs Es). cbv zeta in Hs. rewrite E1 in Hs.
        cbn [fst snd] in Hs. destruct Hs as [Hlv Hcalls].
        split; [ exact Hlv | ].
        eexists. split; [ exact Hcalls | ].
        destruct ((offset =? NEMA_REG_SIG)
                  && (val =? NEMA_REG_OP_SIGNAL_RECEIVED)); reflexivity. }
    destruct H1 as [Hl1 [n1 [Hc1 Hi1]]].
    split.
    + rewrite Hl. cbn [line_after]. now rewrite Hl1.
    + exists (n1 ++ new). split.
      * rewrite Hc, Hc1, app_assoc. reflexivity.
      * rewrite irq_raises_app, Hi, Hi1.
        change ((cl, offset, val) :: ws) with ([(cl, offset, val)] ++ ws).
        now rewrite filter_app, length_app.
Qed.

(** Submit the scenario, acknowledge, submit the empty list: two
    interrupts, and the line is high. *)
Lemma completion_line_protocol_witness :
  let ws := [(scenario_list, NEMA_REG_OP, NEMA_REG_OP_SUBMIT_COMMAND_LIST);
             (scenario_list, NEMA_REG_SIG, NEMA_REG_OP_SIGNAL_RECEIVED);
             (sample_list [], NEMA_REG_OP, NEMA_REG_OP_SUBMIT_COMMAND_LIST)] in
  inst_processed (dev (snd (guest_writes ws idle_world))) = true /\
  exists new,
    calls (snd (guest_writes ws idle_world)) = new /\
    irq_raises new = 2%nat.
Proof.
  intro ws.
  apply (completion_line_protocol ws idle_world).
  vm_compute. reflexivity.
Defined.

(* ------------------------------------------------------------------ *)
(** ** The host timer *)

Lemma timer_read_ms_latch now sz ds :
  Timer.on_timer_io_read now 8 sz ds =
    (Timer.time_byte (Timer.clock_ms now) 7,
     {| Timer.time_ms := Timer.clock_ms now;
        Timer.time_us := Timer.time_us ds |}).
Proof. reflexivity. Qed.

Lemma timer_read_us_latch now sz ds :
  Timer.on_timer_io_read now 16 sz ds =
    (Timer.time_byte (Timer.clock_us now) 7,
     {| Timer.time_ms := Timer.time_ms ds;
        Timer.time_us := Timer.clock_us now |}).
Proof. reflexivity. Qed.

Lemma timer_read_ms_byte now a sz ds :
  1 <= a < 8 ->
  Timer.on_timer_io_read now a sz ds =
    (Timer.time_byte (Timer.time_ms ds) (a - 1), ds).
Proof.
  intro H. unfold Timer.on_timer_io_read, Timer.HOST_TIME_VALUE_OFFSET.
  destruct (Z.eqb_spec a (1 + 7)); [ lia | ].
  destruct (Z.leb_spec 1 a); [ | lia ].
  destruct (Z.ltb_spec a (1 + 8)); [ | lia ].
  reflexivity.
Qed.

Lemma timer_read_us_byte now a sz ds :
  9 <= a < 16 ->
  Timer.on_timer_io_read now a sz ds =
    (Timer.time_byte (Timer.time_us ds) (a - 1 - 8), ds).
Proof.
  intro H. unfold Timer.on_timer_io_read, Timer.HOST_TIME_VALUE_OFFSET.
  destruct (Z.eqb_spec a (1 + 7)); [ lia | ].
  destruct (Z.leb_spec 1 a); [ | lia ].
  destruct (Z.ltb_spec a (1 + 8)); [ lia | ].
  destruct (Z.eqb_spec a (1 + 15)); [ lia | ].
  destruct (Z.leb_spec (1 + 8) a); [ | lia ].
  destruct (Z.ltb_spec a (1 + 16)); [ | lia ].
  reflexivity.
Qed.

Lemma timer_read_outside now a sz ds :
  a < 1 \/ 16 < a -> Timer.on_timer_io_read now a sz ds = (0, ds).
Proof.
  intro H. unfold Timer.on_timer_io_read, Timer.HOST_TIME_VALUE_OFFSET.
  destruct (Z.eqb_spec a (1 + 7)); [ lia | ].
  destruct (Z.eqb_spec a (1 + 15)); [ lia | ].
  destruct (Z.leb_spec 1 a); destruct (Z.ltb_spec a (1 + 8));
    destruct (Z.leb_spec (1 + 8) a); destruct (Z.ltb_spec a (1 + 16));
    cbn [andb]; try reflexivity; lia.
Qed.

Lemma time_byte_0 t : Timer.time_byte t 0 = t mod 256.
Proof.
  unfold Timer.time_byte, uint8. cbn [Z.modulo Z.div_eucl Z.mul].
  rewrite Z.shiftr_0_r. change 255 with (Z.ones 8).
  rewrite Z.land_ones by lia. change (2 ^ 8) with 256.
  apply Z.mod_mod. lia.
Qed.

Lemma time_byte_succ t k :
  0 <= k < 255 -> Timer.time_byte t (k + 1) = Timer.time_byte (t / 256) k.
Proof.
  intro H. unfold Timer.time_byte, uint8.
  rewrite (Z.mod_small (k + 1) 256), (Z.mod_small k 256) by lia.
  f_equal. f_equal.
  replace ((k + 1) * 8) with (8 + k * 8) by lia.
  rewrite <- Z.shiftr_shiftr by lia.
  rewrite (Z.shiftr_div_pow2 t 8) by lia. reflexivity.
Qed.

Lemma time_byte_div t k :
  0 <= k < 256 ->
  Timer.time_byte t k = (t / 2 ^ (8 * k)) mod 256.
Proof.
  intro H. unfold Timer.time_byte, uint8.
  rewrite (Z.mod_small k 256) by lia.
  rewrite Z.shiftr_div_pow2 by lia.
  change 255 with (Z.ones 8). rewrite Z.land_ones by lia.
  change (2 ^ 8) with 256. rewrite Z.mod_mod by lia.
  now rewrite Z.mul_comm.
Qed.

(** The [n] low bytes of a value, read lowest first, give the value modulo
    [256 ^ n]. *)
Lemma le_value_time_bytes n : forall t,
  (n <= 255)%nat ->
  le_value (map (fun k => Timer.time_byte t (Z.of_nat k)) (seq 0 n)) =
    t mod 256 ^ Z.of_nat n.
Proof.
  induction n as [ | n IH]; intros t Hn.
  - simpl. now rewrite Z.mod_1_r.
  - rewrite <- cons_seq, <- seq_shift. cbn [map le_value]. rewrite map_map.
    rewrite (map_ext_in _ (fun k => Timer.time_byte (t / 256) (Z.of_nat k))).
    2:{ intros k Hk. apply in_seq in Hk.
        rewrite Nat2Z.inj_succ. unfold Z.succ.
        apply time_byte_succ. lia. }
    rewrite IH by lia. change (Z.of_nat 0) with 0. rewrite time_byte_0.
    rewrite Nat2Z.inj_succ, Z.pow_succ_r by lia.
    symmetry. apply Z.rem_mul_r; [ lia | ].
    apply Z.pow_pos_nonneg; lia.
Qed.

Lemma le_value_app l1 l2 :
  le_value (l1 ++ l2) =
    le_value l1 + 256 ^ Z.of_nat (length l1) * le_value l2.
Proof.
  induction l1 as [ | b l1 IH]; cbn [app le_value length].
  - change (256 ^ Z.of_nat 0) with 1. lia.
  - rewrite IH, Nat2Z.inj_succ, Z.pow_succ_r by lia. ring.
Qed.

(** X14: the round trip of the timer.  A read of offset 8 latches the
    millisecond clock; together with the reads of offsets 7 down to 1
    that follow it, whatever the clock shows by then, the eight bytes are
    the little-endian bytes of the value the clock had at the read of
    offset 8, modulo 2^64.  The same holds for the microsecond clock with
    offset 16 first and then 15 down to 9. *)
Theorem timer_descending_reads_round_trip now later ds :
  let reads_ms :=
    (now, 8) :: map (fun a => (later a, a)) [7; 6; 5; 4; 3; 2; 1] in
  let reads_us :=
    (now, 16) :: map (fun a => (later a, a)) [15; 14; 13; 12; 11; 10; 9] in
  le_value (rev (fst (Timer.read_seq reads_ms ds))) =
    Timer.clock_ms now mod 2 ^ 64 /\
  le_value (rev (fst (Timer.read_seq reads_us ds))) =
    Timer.clock_us now mod 2 ^ 64.
Proof.
  intros reads_ms reads_us. subst reads_ms reads_us.
  cbn [map Timer.read_seq]. split.
  - rewrite timer_read_ms_latch.
    repeat (rewrite timer_read_ms_byte by lia).
    cbn [fst rev app Timer.time_ms].
    exact (le_value_time_bytes 8 (Timer.clock_ms now) ltac:(lia)).
  - rewrite timer_read_us_latch.
    repeat (rewrite timer_read_us_byte by lia).
    cbn [fst rev app Timer.time_us].
    exact (le_value_time_bytes 8 (Timer.clock_us now) ltac:(lia)).
Qed.

(** X15: read in ascending order the eight bytes tear.  Offsets 1 to 7 do
    not latch, so they give the seven low bytes of the value latched
    before, whatever the clock shows; only the read of offset 8 takes the
    clock, and it contributes its top byte alone. *)
Theorem timer_ascending_reads_tear now earlier ds :
  let reads :=
    map (fun a => (earlier a, a)) [1; 2; 3; 4; 5; 6; 7] ++ [(now, 8)] in
  le_value (fst (Timer.read_seq reads ds)) =
    Timer.time_ms ds mod 2 ^ 56
    + 2 ^ 56 * ((Timer.clock_ms now / 2 ^ 56) mod 256).
Proof.
  intro reads. subst reads. cbn [map app Timer.read_seq].
  repeat (rewrite timer_read_ms_byte by lia).
  rewrite timer_read_ms_latch. cbn [fst].
  change [Timer.time_byte (Timer.time_ms ds) (1 - 1);
          Timer.time_byte (Timer.time_ms ds) (2 - 1);
          Timer.time_byte (Timer.time_ms ds) (3 - 1);
          Timer.time_byte (Timer.time_ms ds) (4 - 1);
          Timer.time_byte (Timer.time_ms ds) (5 - 1);
          Timer.time_byte (Timer.time_ms ds) (6 - 1);
          Timer.time_byte (Timer.time_ms ds) (7 - 1);
          Timer.time_byte (Timer.clock_ms now) 7]
    with (map (fun k => Timer.time_byte (Timer.time_ms ds) (Z.of_nat k))
            (seq 0 7) ++ [Timer.time_byte (Timer.clock_ms now) 7]).
  rewrite le_value_app, le_value_time_bytes by lia.
  rewrite length_map, length_seq. cbn [le_value].
  rewrite time_byte_div by lia.
  change (Z.of_nat 7) with 7. change (8 * 7) with 56.
  change (256 ^ 7) with (2 ^ 56). lia.
Qed.

(** X16: what a read of the timer can and cannot do.  The value returned
    is a byte.  Only a read of offset 8 changes the latched milliseconds,
    to what the clock shows, and only a read of offset 16 the latched
    microseconds.  The reads of the other offsets leave the device as it
    is, and outside offsets 1 to 16, the operation register at offset 0
    included, they return 0.  A write changes nothing. *)
Theorem timer_latches_on_top_byte_only now addr val sz ds :
  let r := Timer.on_timer_io_read now addr sz ds in
  0 <= fst r < 256 /\
  Timer.time_ms (snd r) =
    (if addr =? 8 then Timer.clock_ms now else Timer.time_ms ds) /\
  Timer.time_us (snd r) =
    (if addr =? 16 then Timer.clock_us now else Timer.time_us ds) /\
  ((addr <? 1) || (16 <? addr) = true -> fst r = 0) /\
  Timer.on_timer_io_write addr val sz ds = ds.
Proof.
  intro r. subst r.
  assert (Hb : forall t k, 0 <= Timer.time_byte t k < 256)
    by (intros; apply Z.mod_pos_bound; lia).
  destruct (Z_lt_dec addr 1) as [H1 | H1];
    [ | destruct (Z_lt_dec 16 addr) as [H2 | H2] ].
  - rewrite timer_read_outside by lia.
    destruct (Z.eqb_spec addr 8); [ lia | ].
    destruct (Z.eqb_spec addr 16); [ lia | ].
    cbn [fst snd]. repeat split; lia.
  - rewrite timer_read_outside by lia.
    destruct (Z.eqb_spec addr 8); [ lia | ].
    destruct (Z.eqb_spec addr 16); [ lia | ].
    cbn [fst snd]. repeat split; lia.
  - assert (Hn : (addr <? 1) || (16 <? addr) = false).
    { destruct (Z.ltb_spec addr 1); [ lia | ].
      destruct (Z.ltb_spec 16 addr); [ lia | reflexivity ]. }
    rewrite Hn.
    destruct (Z.eqb_spec addr 8) as [E8 | E8];
      [ subst addr; rewrite timer_read_ms_latch; cbn [fst snd Z.eqb
          Timer.time_ms Timer.time_us];
        repeat split; try apply Hb; discriminate | ].
    destruct (Z.eqb_spec addr 16) as [E16 | E16];
      [ subst addr; rewrite timer_read_us_latch; cbn [fst snd
          Timer.time_ms Timer.time_us];
        repeat split; try apply Hb; discriminate | ].
    destruct (Z_lt_dec addr 8).
    + rewrite timer_read_ms_byte by lia. cbn [fst snd].
      repeat split; try apply Hb; discriminate.
    + rewrite timer_read_us_byte by lia. cbn [fst snd].
      repeat split; try apply Hb; discriminate.
Qed.

(** A read of the operation register. *)
Lemma timer_latches_on_top_byte_only_witness :
  let ds := {| Timer.time_ms := 1000; Timer.time_us := 1000000 |} in
  let now := {| Timer.clock_ms := 2000; Timer.clock_us := 2000000 |} in
  fst (Timer.on_timer_io_read now 0 1 ds) = 0.
Proof.
  intros ds now.
  apply (proj1 (proj2 (proj2 (proj2
           (timer_latches_on_top_byte_only now 0 0 1 ds))))).
  reflexivity.
Defined.

(* ------------------------------------------------------------------ *)
(** ** The RAM framebuffer display *)

Lemma ram_fb_step_counts bpp grant i ds ds1 l1 :
  RamDisp.step bpp grant i ds = Done (ds1, l1) ->
  (length (filter RamDisp.is_raise l1) + RamDisp.pending ds1 =
   length (filter RamDisp.is_map l1) + RamDisp.pending ds)%nat.
Proof.
  destruct i as [addr val | ]; cbn [RamDisp.step].
  - unfold RamDisp.ram_fb_write.
    destruct ((addr =? RamDisp.RAM_DISPLAY_WRITE_OFFSET)
              && (val =? RamDisp.RAM_DISPLAY_WRITE_SIGNAL)).
    + destruct (RamDisp.is_updating ds) eqn:Eu.
      * intro H. inversion H. subst. reflexivity.
      * unfold RamDisp.update_display_surface.
        destruct (RamDisp.screen_size (RamDisp.set_updating true ds) =? 0);
          [ discriminate | ].
        destruct (negb _); [ discriminate | ].
        intro H. inversion H. subst. unfold RamDisp.pending. cbn. now rewrite Eu.
    + destruct ((addr =? RamDisp.RAM_DISPLAY_WRITE_OFFSET)
                && (val =? RamDisp.RAM_DISPLAY_READY_SIGNAL));
        intro H; inversion H; subst; reflexivity.
  - unfold RamDisp.display_update_callback, RamDisp.update_qemu_console,
      RamDisp.signal_display_update_complete.
    destruct (RamDisp.display_surface ds) as [s | ];
      [ destruct (RamDisp.console_shows ds) | ];
      destruct (RamDisp.is_updating ds) eqn:Eu;
      cbn; rewrite ?Eu; intro H; inversion H; subst;
      unfold RamDisp.pending; cbn; rewrite ?Eu; reflexivity.
Qed.

(** X17: the interrupt of the display answers update requests, one for
    one.  Over any run of guest writes and console refreshes that did not
    exit, the line was raised once for each framebuffer mapping an update
    request made, less the one request still pending at the end (plus the
    one pending at the start): no interrupt comes without a request, and at
    most one request is outstanding. *)
Theorem display_interrupts_answer_requests bpp grant inputs :
  forall ds ds' log,
    RamDisp.run bpp grant inputs ds = Done (ds', log) ->
    (length (filter RamDisp.is_raise log) + RamDisp.pending ds' =
     length (filter RamDisp.is_map log) + RamDisp.pending ds)%nat.
Proof.
  induction inputs as [ | i inputs IH]; intros ds ds' log H.
  - inversion H. subst. reflexivity.
  - cbn [RamDisp.run] in H.
    destruct (RamDisp.step bpp grant i ds) as [[ds1 l1] | | u] eqn:E1;
      try discriminate H.
    destruct (RamDisp.run bpp grant inputs ds1) as [[ds2 l2] | | u] eqn:E2;
      try discriminate H.
    inversion H. subst.
    pose proof (ram_fb_step_counts _ _ _ _ _ _ E1) as H1.
    pose proof (IH _ _ _ E2) as H2.
    rewrite !filter_app, !length_app. lia.
Qed.

(** Two requests, the second while the first is pending, then a refresh:
    one mapping, one interrupt. *)
Lemma display_interrupts_answer_requests_witness :
  let inputs := [RamDisp.GuestWrite 1 1; RamDisp.GuestWrite 1 1;
                 RamDisp.GfxUpdate] in
  exists ds' log,
    RamDisp.run 32 (fun _ len => len) inputs (RamDisp.realized 240)
      = Done (ds', log) /\
    length (filter RamDisp.is_raise log) = 1%nat /\
    length (filter RamDisp.is_map log) = 1%nat.
Proof.
  intro inputs.
  destruct (RamDisp.run 32 (fun _ len => len) inputs (RamDisp.realized 240))
    as [[ds' log] | | u] eqn:E; try (vm_compute in E; discriminate E).
  exists ds', log. split; [ reflexivity | ].
  pose proof (display_interrupts_answer_requests _ _ _ _ _ _ E) as H.
  assert (Hp : RamDisp.pending ds' = 0%nat)
    by (vm_compute in E; inversion E; reflexivity).
  assert (Hm : length (filter RamDisp.is_map log) = 1%nat)
    by (vm_compute in E; inversion E; reflexivity).
  rewrite Hp, Hm in H. cbn in H. split; [ lia | exact Hm ].
Defined.

Lemma bytes_per_pixel bpp :
  0 < bpp -> bpp mod 8 = 0 -> 0 < bpp / 8 /\ bpp / 8 * 8 = bpp.
Proof.
  intros Hb H8. apply Z.mod_divide in H8; [ | lia ]. destruct H8 as [q Hq].
  subst bpp. rewrite Z.div_mul by lia. lia.
Qed.

Lemma linesize_exact bpp ds :
  0 < RamDisp.screen_size ds -> 0 < bpp -> bpp mod 8 = 0 ->
  RamDisp.screen_size ds * bpp < 4294967296 ->
  RamDisp.linesize bpp ds = RamDisp.screen_size ds * (bpp / 8).
Proof.
  intros Hn Hb H8 Hlt. unfold RamDisp.linesize, uint32.
  rewrite Z.mod_small by nia.
  destruct (bytes_per_pixel bpp Hb H8) as [_ Hq].
  rewrite <- Hq at 1. rewrite Z.mul_assoc, Z.div_mul by lia. reflexivity.
Qed.

Lemma fb_size_exact bpp ds :
  0 < RamDisp.screen_size ds -> 0 < bpp -> bpp mod 8 = 0 ->
  RamDisp.screen_size ds * bpp < 4294967296 ->
  RamDisp.fb_size bpp ds =
    RamDisp.screen_size ds * RamDisp.screen_size ds * (bpp / 8).
Proof.
  intros Hn Hb H8 Hlt. unfold RamDisp.fb_size.
  rewrite (linesize_exact bpp ds Hn Hb H8 Hlt).
  destruct (bytes_per_pixel bpp Hb H8) as [Hq Hq8].
  unfold uint32. rewrite (Z.mod_small (RamDisp.screen_size ds - 1)) by nia.
  rewrite Z.mod_small; [ ring | nia ].
Qed.

Lemma update_request_accepted bpp grant sz ds :
  let n := RamDisp.screen_size ds in
  let len := n * n * (bpp / 8) in
  0 < n -> 0 < bpp -> bpp mod 8 = 0 -> n * bpp < 4294967296 ->
  RamDisp.is_updating ds = false ->
  grant RamDisp.RAM_DISPLAY_DATA_ADDRESS len = len ->
  RamDisp.ram_fb_write bpp grant 1 1 sz ds =
  Done ({| RamDisp.is_updating := true;
           RamDisp.display_surface :=
             Some {| RamDisp.sf_width := n; RamDisp.sf_height := n;
                     RamDisp.sf_stride := n * (bpp / 8);
                     RamDisp.sf_data := RamDisp.RAM_DISPLAY_DATA_ADDRESS;
                     RamDisp.sf_len := len |};
           RamDisp.screen_size := n;
           RamDisp.update_complete_irq := RamDisp.update_complete_irq ds;
           RamDisp.console_shows :=
             match RamDisp.display_surface ds with
             | None => false
             | Some _ => RamDisp.console_shows ds
             end |},
        [RamDisp.MapFb RamDisp.RAM_DISPLAY_DATA_ADDRESS len]).
Proof.
  intros n len Hn Hb H8 Hlt Hu Hg.
  unfold RamDisp.ram_fb_write.
  change ((1 =? RamDisp.RAM_DISPLAY_WRITE_OFFSET)
          && (1 =? RamDisp.RAM_DISPLAY_WRITE_SIGNAL)) with true.
  cbv iota. rewrite Hu.
  unfold RamDisp.update_display_surface.
  change (RamDisp.fb_size bpp (RamDisp.set_updating true ds))
    with (RamDisp.fb_size bpp ds).
  change (RamDisp.linesize bpp (RamDisp.set_updating true ds))
    with (RamDisp.linesize bpp ds).
  rewrite (fb_size_exact bpp ds Hn Hb H8 Hlt),
    (linesize_exact bpp ds Hn Hb H8 Hlt).
  cbn [RamDisp.screen_size RamDisp.set_updating RamDisp.display_surface
       RamDisp.is_updating RamDisp.update_complete_irq
       RamDisp.console_shows].
  fold n. fold len.
  destruct (bytes_per_pixel bpp Hb H8) as [Hq Hq8].
  rewrite (int32_small n), (int32_small (n * (bpp / 8))) by nia.
  destruct (Z.eqb_spec n 0); [ lia | ].
  rewrite Hg, Z.eqb_refl. reflexivity.
Qed.

(** X18: the first update request of a display of [n] by [n] pixels, [n]
    not zero and [n] times the bits per pixel within 32 bits, maps
    [n * n * bytes per pixel] bytes at the framebuffer address; when the
    platform grants them all, the write returns with the request pending,
    the line untouched, and a surface of [n] by [n] pixels, a stride of
    [n * bytes per pixel], over that mapping. *)
Theorem first_update_maps_square_framebuffer bpp grant n sz :
  0 < n -> 0 < bpp -> bpp mod 8 = 0 -> n * bpp < 4294967296 ->
  let len := n * n * (bpp / 8) in
  grant RamDisp.RAM_DISPLAY_DATA_ADDRESS len = len ->
  RamDisp.ram_fb_write bpp grant RamDisp.RAM_DISPLAY_WRITE_OFFSET
    RamDisp.RAM_DISPLAY_WRITE_SIGNAL sz (RamDisp.realized n) =
  Done ({| RamDisp.is_updating := true;
           RamDisp.display_surface :=
             Some {| RamDisp.sf_width := n; RamDisp.sf_height := n;
                     RamDisp.sf_stride := n * (bpp / 8);
                     RamDisp.sf_data := RamDisp.RAM_DISPLAY_DATA_ADDRESS;
                     RamDisp.sf_len := len |};
           RamDisp.screen_size := n;
           RamDisp.update_complete_irq := false;
           RamDisp.console_shows := false |},
        [RamDisp.MapFb RamDisp.RAM_DISPLAY_DATA_ADDRESS len]).
Proof.
  intros Hn Hb H8 Hlt len Hg.
  exact (update_request_accepted bpp grant sz (RamDisp.realized n)
           Hn Hb H8 Hlt eq_refl Hg).
Qed.

(** A display of 240 by 240 pixels of 32 bits: 230400 bytes. *)
Lemma first_update_maps_square_framebuffer_witness :
  exists ds,
    RamDisp.ram_fb_write 32 (fun _ len => len) 1 1 1 (RamDisp.realized 240)
      = Done (ds, [RamDisp.MapFb 562036736 230400]) /\
    RamDisp.is_updating ds = true.
Proof.
  eexists. split.
  - apply (first_update_maps_square_framebuffer 32 (fun _ len => len) 240 1);
      try lia; reflexivity.
  - reflexivity.
Defined.

(** X19: when an update request is refused or dropped.  A request while
    one is pending is ignored: nothing is mapped and the state stays.  A
    request with no update pending makes the process exit when the screen
    size is zero, and when the platform grants another length than the
    framebuffer needs. *)
Theorem update_request_refused bpp grant sz ds :
  let r := RamDisp.ram_fb_write bpp grant RamDisp.RAM_DISPLAY_WRITE_OFFSET
             RamDisp.RAM_DISPLAY_WRITE_SIGNAL sz ds in
  let size := RamDisp.fb_size bpp ds in
  (RamDisp.is_updating ds = true -> r = Done (ds, [])) /\
  (RamDisp.is_updating ds = false ->
   RamDisp.screen_size ds = 0 \/
   grant RamDisp.RAM_DISPLAY_DATA_ADDRESS size <> size ->
   r = Exited).
Proof.
  intros r size. subst r size. unfold RamDisp.ram_fb_write.
  rewrite !Z.eqb_refl. cbn [andb]. split; intro Hu; rewrite Hu.
  - reflexivity.
  - unfold RamDisp.update_display_surface.
    change (RamDisp.fb_size bpp (RamDisp.set_updating true ds))
      with (RamDisp.fb_size bpp ds).
    cbn [RamDisp.screen_size RamDisp.set_updating].
    intros [H0 | Hg].
    + rewrite H0. reflexivity.
    + destruct (RamDisp.screen_size ds =? 0); [ reflexivity | ].
      apply Z.eqb_neq in Hg. rewrite Z.eqb_sym, Hg. reflexivity.
Qed.

(** A display whose screen size was never set. *)
Lemma update_request_refused_witness :
  RamDisp.ram_fb_write 32 (fun _ len => len) 1 1 1 (RamDisp.realized 0)
    = Exited.
Proof.
  apply (proj2 (update_request_refused 32 (fun _ len => len) 1
                  (RamDisp.realized 0)) eq_refl).
  left. reflexivity.
Defined.

(** X20: one update cycle and the next.  From the realized device,
    request, refresh, acknowledge: the framebuffer is mapped, the console
    is given the surface and updated, the line is raised, then lowered;
    the device ends idle with the line low.  On the next cycle the console
    already shows the surface: it is not replaced again, and the device
    ends in the same state. *)
Theorem update_cycles bpp grant n :
  0 < n -> 0 < bpp -> bpp mod 8 = 0 -> n * bpp < 4294967296 ->
  let len := n * n * (bpp / 8) in
  let addr := RamDisp.RAM_DISPLAY_DATA_ADDRESS in
  let cycle := [RamDisp.GuestWrite 1 1; RamDisp.GfxUpdate;
                RamDisp.GuestWrite 1 0] in
  let idle :=
    {| RamDisp.is_updating := false;
       RamDisp.display_surface :=
         Some {| RamDisp.sf_width := n; RamDisp.sf_height := n;
                 RamDisp.sf_stride := n * (bpp / 8);
                 RamDisp.sf_data := addr; RamDisp.sf_len := len |};
       RamDisp.screen_size := n;
       RamDisp.update_complete_irq := false;
       RamDisp.console_shows := true |} in
  grant addr len = len ->
  RamDisp.run bpp grant cycle (RamDisp.realized n) =
    Done (idle, [RamDisp.MapFb addr len; RamDisp.ReplaceSurface;
                 RamDisp.UpdateFull; RamDisp.LineRaise;
                 RamDisp.LineLower]) /\
  RamDisp.run bpp grant cycle idle =
    Done (idle, [RamDisp.MapFb addr len; RamDisp.UpdateFull;
                 RamDisp.LineRaise; RamDisp.LineLower]).
Proof.
  intros Hn Hb H8 Hlt len addr cycle idle Hg.
  subst cycle. cbn [RamDisp.run RamDisp.step]. split.
  - rewrite (update_request_accepted bpp grant 1 (RamDisp.realized n)
               Hn Hb H8 Hlt eq_refl Hg).
    reflexivity.
  - rewrite (update_request_accepted bpp grant 1 idle
               Hn Hb H8 Hlt eq_refl Hg).
    reflexivity.
Qed.

Lemma update_cycles_witness :
  exists ds1,
    RamDisp.run 32 (fun _ len => len)
      [RamDisp.GuestWrite 1 1; RamDisp.GfxUpdate; RamDisp.GuestWrite 1 0]
      (RamDisp.realized 240) =
      Done (ds1, [RamDisp.MapFb 562036736 230400; RamDisp.ReplaceSurface;
                  RamDisp.UpdateFull; RamDisp.LineRaise;
                  RamDisp.LineLower]) /\
    RamDisp.update_complete_irq ds1 = false.
Proof.
  eexists. split.
  - apply (proj1 (update_cycles 32 (fun _ len => len) 240 ltac:(lia)
                    ltac:(lia) eq_refl ltac:(lia) eq_refl)).
  - reflexivity.
Defined.

(* ------------------------------------------------------------------ *)
(** ** The RAM table of the board *)

Lemma find_raminfo_loop_spec p m : forall found,
  Board.terminated p ->
  Board.find_raminfo_loop p m found =
    match found, filter (Board.is_for_mpc m) (Board.live p) with
    | None, [] => Board.Found None
    | None, [e] => Board.Found (Some e)
    | Some f, [] => Board.Found (Some f)
    | _, _ => Board.AssertFailed
    end.
Proof.
  induction p as [ | e p IH]; intros found [t [Hin Ht]].
  - contradiction.
  - cbn [Board.find_raminfo_loop Board.live].
    destruct (Board.name e) as [s | ] eqn:En.
    + assert (Hterm : Board.terminated p).
      { destruct Hin as [E | Hin]; [ subst t; congruence | ].
        now exists t. }
      cbn [filter].
      destruct (Board.is_for_mpc m e).
      * destruct found as [f | ]; [ reflexivity | ].
        rewrite (IH _ Hterm).
        destruct (filter (Board.is_for_mpc m) (Board.live p)); reflexivity.
      * apply (IH _ Hterm).
    + destruct found; reflexivity.
Qed.

(** X21: over a table that ends in an entry with a [NULL] name, the lookup
    of the RAM behind an MPC returns an entry exactly when one entry
    before the end, and only one, is for that MPC and is not an alias, and
    then it is that entry; with none or with several an assertion fails.
    Entries after the terminating one are never looked at. *)
Theorem find_raminfo_for_mpc_unique raminfo m :
  Board.terminated raminfo ->
  Board.find_raminfo_for_mpc raminfo m =
    match filter (Board.is_for_mpc m) (Board.live raminfo) with
    | [e] => Board.Found e
    | _ => Board.AssertFailed
    end.
Proof.
  intro Ht. unfold Board.find_raminfo_for_mpc.
  rewrite (find_raminfo_loop_spec _ _ None Ht).
  destruct (filter (Board.is_for_mpc m) (Board.live raminfo))
    as [ | e [ | e' l]]; reflexivity.
Qed.

Lemma slate_raminfo_terminated : Board.terminated Board.slate_raminfo.
Proof.
  exists {| Board.name := None; Board.base := 0; Board.size := 0;
            Board.mpc := 0; Board.mrindex := 0; Board.flags := 0 |}.
  split; [ | reflexivity ].
  do 4 right. left. reflexivity.
Qed.

(** The three MPCs of the board have their RAM: sram, QSPI and DDR; there
    is no entry for an MPC 3; "sram 2", behind no MPC, is what the lookup
    of -1 gives. *)
Lemma find_raminfo_for_mpc_unique_witness :
  (exists e, Board.find_raminfo_for_mpc Board.slate_raminfo 0 = Board.Found e
             /\ Board.base e = 16777216) /\
  (exists e, Board.find_raminfo_for_mpc Board.slate_raminfo 1 = Board.Found e
             /\ Board.base e = 671088640) /\
  (exists e, Board.find_raminfo_for_mpc Board.slate_raminfo 2 = Board.Found e
             /\ Board.base e = 1610612736) /\
  Board.find_raminfo_for_mpc Board.slate_raminfo 3 = Board.AssertFailed.
Proof.
  pose proof (fun m => find_raminfo_for_mpc_unique Board.slate_raminfo m
                         slate_raminfo_terminated) as H.
  split; [ | split; [ | split ] ].
  - eexists. split; [ exact (H 0) | reflexivity ].
  - eexists. split; [ exact (H 1) | reflexivity ].
  - eexists. split; [ exact (H 2) | reflexivity ].
  - exact (H 3).
Defined.

(** X22: the two first-match lookups.  Over a table that ends in an entry
    with a [NULL] name, the default RAM is the first entry before the end
    whose [mrindex] is negative, and its size and name are what is set;
    the boot RAM size is the value of the machine class when that is not
    zero, whatever the table holds, and otherwise the size of the first
    entry based at address 0.  With no such entry the function runs into
    [g_assert_not_reached]. *)
Theorem first_match_lookups raminfo class_size :
  Board.terminated raminfo ->
  Board.set_default_ram_info raminfo =
    match find (fun e => Board.mrindex e <? 0) (Board.live raminfo) with
    | Some e => Board.Found (Board.size e, Board.name e)
    | None => Board.AssertFailed
    end /\
  Board.boot_ram_size class_size raminfo =
    if class_size =? 0 then
      match find (fun e => Board.base e =? 0) (Board.live raminfo) with
      | Some e => Board.Found (Board.size e)
      | None => Board.AssertFailed
      end
    else Board.Found class_size.
Proof.
  intro Ht. split.
  - induction raminfo as [ | e p IH]; destruct Ht as [t [Hin Hn]];
      [ contradiction | ].
    cbn [Board.set_default_ram_info Board.live].
    destruct (Board.name e) as [s | ] eqn:En; [ | reflexivity ].
    cbn [find]. destruct (Board.mrindex e <? 0);
      [ now rewrite En | ].
    apply IH. destruct Hin as [E | Hin]; [ subst t; congruence | ].
    now exists t.
  - unfold Board.boot_ram_size.
    destruct (class_size =? 0); [ | reflexivity ]. cbn [negb].
    induction raminfo as [ | e p IH]; destruct Ht as [t [Hin Hn]];
      [ contradiction | ].
    cbn [Board.boot_ram_loop Board.live].
    destruct (Board.name e) as [s | ] eqn:En; [ | reflexivity ].
    cbn [find]. destruct (Board.base e =? 0); [ reflexivity | ].
    apply IH. destruct Hin as [E | Hin]; [ subst t; congruence | ].
    now exists t.
Qed.

(** The board: DDR, 128 MiB, is the default RAM; the boot RAM size is the
    16 MiB of the class, and the table alone, which has no RAM at address
    0, would not give one. *)
Lemma first_match_lookups_witness :
  (exists ddr,
     nth_error Board.slate_raminfo 3 = Some ddr /\
     Board.set_default_ram_info Board.slate_raminfo =
       Board.Found (134217728, Board.name ddr)) /\
  Board.boot_ram_size (16 * Board.MiB) Board.slate_raminfo =
    Board.Found 16777216 /\
  Board.boot_ram_size 0 Board.slate_raminfo = Board.AssertFailed.
Proof.
  split; [ | split ].
  - eexists. split; [ reflexivity | ].
    exact (proj1 (first_match_lookups Board.slate_raminfo 0
                    slate_raminfo_terminated)).
  - exact (proj2 (first_match_lookups Board.slate_raminfo (16 * Board.MiB)
                    slate_raminfo_terminated)).
  - exact (proj2 (first_match_lookups Board.slate_raminfo 0
                    slate_raminfo_terminated)).
Defined.

(* ------------------------------------------------------------------ *)
(** ** What the compositor operations read of a record *)

Lemma int16_mod x y : x mod 65536 = y mod 65536 -> int16 x = int16 y.
Proof. intro H. unfold int16. now rewrite H. Qed.

(** X23: BLIT takes nothing from its record but the opcode: it always
    covers the whole destination from its origin, so two BLIT records act
    alike.  FILL_RECT takes its origin and its size as 16-bit values: two
    fills of one colour whose origins and sizes agree modulo 65536 act
    alike, so a width of 65536 + k fills what a width of k fills. *)
Theorem composite_geometry_is_16_bit c1 c2 ctx w :
  op c1 = op c2 -> is_composite_op (op c1) = true ->
  (op c1 = NEMA_OP_FILL_RECT ->
   u_int_c c1 = u_int_c c2 /\
   int_a c1 mod 65536 = int_a c2 mod 65536 /\
   int_b c1 mod 65536 = int_b c2 mod 65536 /\
   u_int_a c1 mod 65536 = u_int_a c2 mod 65536 /\
   u_int_b c1 mod 65536 = u_int_b c2 mod 65536) ->
  process_cmd c1 ctx w = process_cmd c2 ctx w.
Proof.
  intros Eop Hop Hf. unfold is_composite_op in Hop.
  apply orb_true_iff in Hop. rewrite !Z.eqb_eq in Hop.
  destruct Hop as [E | E].
  - rewrite (process_cmd_blit c1 ctx E).
    rewrite Eop in E. now rewrite (process_cmd_blit c2 ctx E).
  - destruct (Hf E) as [Hc [Hx [Hy [Hw Hh]]]].
    rewrite (process_cmd_fill_rect c1 ctx E).
    rewrite Eop in E. rewrite (process_cmd_fill_rect c2 ctx E).
    unfold bind. rewrite !execute_fill_rect_eq.
    unfold uint16. rewrite Hc, Hw, Hh.
    rewrite (int16_mod _ _ Hx), (int16_mod _ _ Hy). reflexivity.
Qed.

(** A fill 65544 wide and 8 high is the fill 8 wide and 8 high. *)
Lemma composite_geometry_is_16_bit_witness :
  let w := sample_world dev_clipped (sample_list []) in
  let ctx := set_blending BLEND_FILL NEMA_BL_SIMPLE ctx_dest_8x8 in
  process_cmd (sample_cmd 8 0 65544 8 4294901760 0 0) ctx w =
    process_cmd fill_red_8x8 ctx w.
Proof.
  intros w ctx.
  apply (composite_geometry_is_16_bit
           (sample_cmd 8 0 65544 8 4294901760 0 0) fill_red_8x8 ctx w
           eq_refl eq_refl).
  intros _. repeat split.
Defined.
